(** * xG27 sensor dashboard: the BLE telemetry payload

    A shallow embedding of the Zephyr firmware of the xG27 sensor node
    ([firmware/src/main.c], release 1.0.0, and the 0.1.0 firmware that
    preceded it) together with the wire format that the bridge consumes.
    The bridge itself (payload codec, reading bus) runs on the host; where
    a statement needs it, it is modelled from the design document, and the
    definition says so.

    Conventions.
    - C integers are mathematical integers ([Z]) with the conversions of the
      C program written out: [uint8_t], [uint16_t] and the signed casts wrap.
    - The advertisement buffer [mfr_data] is a list of bytes updated by index.
    - The globals [mfr_data] and [ble_ready] are threaded as a state record.
    - What the sensor drivers and the Bluetooth stack return is an input of
      the step that consumes it. *)

From Stdlib Require Import ZArith Lia List Bool QArith Qround.
From stdpp Require Import base list gmap.
Import ListNotations.

Local Open Scope Z_scope.

(** ** C integer conversions *)

Module CInt.

(** Conversion to an unsigned type of [w] bits. *)
Definition to_unsigned (w : Z) (z : Z) : Z := z mod 2 ^ w.

(** Conversion to a signed type of [w] bits: reduction modulo [2^w] into
    the two's-complement range, as the compilers of the target define it. *)
Definition to_signed (w : Z) (z : Z) : Z :=
  let r := z mod 2 ^ w in
  if r <? 2 ^ (w - 1) then r else r - 2 ^ w.

Definition uint8 : Z -> Z := to_unsigned 8.
Definition uint16 : Z -> Z := to_unsigned 16.
Definition int16 : Z -> Z := to_signed 16.
Definition int32 : Z -> Z := to_signed 32.

Definition is_uint8 (z : Z) : Prop := 0 <= z <= 255.
Definition is_uint16 (z : Z) : Prop := 0 <= z <= 65535.
Definition is_int16 (z : Z) : Prop := -32768 <= z <= 32767.
Definition is_int32 (z : Z) : Prop := -2147483648 <= z <= 2147483647.

(** [int] arithmetic of the target: 32 bits, written with the wrap-around
    of the machine; C division truncates toward zero. *)
Definition add32 (a b : Z) : Z := int32 (a + b).
Definition mul32 (a b : Z) : Z := int32 (a * b).
Definition neg32 (a : Z) : Z := int32 (- a).
Definition div32 (a b : Z) : Z := int32 (Z.quot a b).

End CInt.

Import CInt.

(** ** Firmware 1.0.0 ([firmware/src/main.c]) *)

(** [struct sensor_value] of Zephyr: integer part and millionths. *)
Record sensor_value : Set := SensorValue { val1 : Z; val2 : Z }.

(** The globals of [main.c] that the payload logic reads and writes.  The
    advertising data [ad] points at [mfr_data]: the buffer is the
    manufacturer payload of the advertisement. *)
Record fw_state : Set := FwState { mfr_data : list Z; ble_ready : bool }.

(** The static initialiser of [mfr_data]. *)
Definition mfr_data_init : list Z :=
  [ 0xFF; 0xFF;   (* company id *)
    0x00; 0x00;   (* temp *)
    0x00;         (* hum *)
    0x00; 0x00;   (* lux *)
    0x00; 0x00;   (* mag *)
    0x00          (* flags *) ].

Definition fw_init : fw_state :=
  {| mfr_data := mfr_data_init; ble_ready := false |}.

(** [bt_ready_cb(err)]; [adv_rc] is what [bt_le_adv_start] returns. *)
Definition bt_ready_cb (err adv_rc : Z) (st : fw_state) : fw_state :=
  if negb (err =? 0) then st
  else if adv_rc =? 0
       then {| mfr_data := mfr_data st; ble_ready := true |}
       else st.

(** [update_ble(temp_cdeg, hum, lux, mag_ut, flags)].  The arguments are
    the values of the parameters, that is, already converted to [int16_t],
    [uint8_t], [uint16_t], [int16_t] and [uint8_t] by the call; the
    statements below take them in those ranges.  The operands of
    [&] and [>>] are promoted to [int]; [>>] on a negative [int] is the
    arithmetic shift.  The closing [bt_le_adv_update_data] hands the buffer
    to the controller and leaves the globals as they are. *)
Definition update_ble (temp_cdeg hum lux mag_ut flags : Z) (st : fw_state)
  : fw_state :=
  if negb (ble_ready st) then st
  else
    let d := mfr_data st in
    let d := <[2%nat := uint8 (Z.land temp_cdeg 0xFF)]> d in
    let d := <[3%nat := uint8 (Z.shiftr temp_cdeg 8)]> d in
    let d := <[4%nat := hum]> d in
    let d := <[5%nat := uint8 (Z.land lux 0xFF)]> d in
    let d := <[6%nat := uint8 (Z.shiftr lux 8)]> d in
    let d := <[7%nat := uint8 (Z.land mag_ut 0xFF)]> d in
    let d := <[8%nat := uint8 (Z.shiftr mag_ut 8)]> d in
    let d := <[9%nat := flags]> d in
    {| mfr_data := d; ble_ready := ble_ready st |}.

(** What the drivers report in one pass of the main loop: for each device
    the result of [device_is_ready], the return code of
    [sensor_sample_fetch], and the values [sensor_channel_get] stores. *)
Record sensor_io : Set := SensorIO {
  si7021_ready : bool;   si7021_fetch : Z;
  si7021_temp : sensor_value;   si7021_hum : sensor_value;
  veml6035_ready : bool; veml6035_fetch : Z;
  veml6035_light : sensor_value;
  si7210_ready : bool;   si7210_fetch : Z;
  si7210_mag : sensor_value
}.

(** The locals of the loop body at the call of [update_ble]. *)
Record locals : Set := Locals {
  temp_cdeg : Z; hum_pct : Z; lux : Z; mag_ut : Z; flags : Z
}.

(** [temp.val1 * 100 + (temp.val2 < 0 ? -(-temp.val2 / 10000)
                                      : temp.val2 / 10000)], in [int]. *)
Definition temp_expr (temp : sensor_value) : Z :=
  add32 (mul32 (val1 temp) 100)
        (if val2 temp <? 0
         then neg32 (div32 (neg32 (val2 temp)) 10000)
         else div32 (val2 temp) 10000).

(** [mag.val1 * 100 + mag.val2 / 10000], in [int]. *)
Definition mag_expr (mag : sensor_value) : Z :=
  add32 (mul32 (val1 mag) 100) (div32 (val2 mag) 10000).

(** Body of [while (1)] up to the call of [update_ble]. *)
Definition loop_locals (io : sensor_io) : locals :=
  let l := {| temp_cdeg := 0; hum_pct := 0; lux := 0; mag_ut := 0;
              flags := 0 |} in
  let l :=
    if si7021_ready io && (si7021_fetch io =? 0)
    then {| temp_cdeg := int16 (temp_expr (si7021_temp io));
            hum_pct := uint8 (val1 (si7021_hum io));
            lux := lux l; mag_ut := mag_ut l;
            flags := uint8 (Z.lor (flags l) 1) |}
    else l in
  let l :=
    if veml6035_ready io && (veml6035_fetch io =? 0)
    then {| temp_cdeg := temp_cdeg l; hum_pct := hum_pct l;
            lux := uint16 (val1 (veml6035_light io));
            mag_ut := mag_ut l;
            flags := uint8 (Z.lor (flags l) 2) |}
    else l in
  let l :=
    if si7210_ready io && (si7210_fetch io =? 0)
    then {| temp_cdeg := temp_cdeg l; hum_pct := hum_pct l;
            lux := lux l;
            mag_ut := int16 (mag_expr (si7210_mag io));
            flags := uint8 (Z.lor (flags l) 4) |}
    else l in
  l.

(** One pass of the main loop: compute the locals, then [update_ble].  The
    [printk], the watchdog feed and the sleep do not touch the globals. *)
Definition loop_iteration (io : sensor_io) (st : fw_state) : fw_state :=
  let l := loop_locals io in
  update_ble (temp_cdeg l) (hum_pct l) (lux l) (mag_ut l) (flags l) st.

(** Events that change the globals, and the states the firmware reaches:
    the Bluetooth stack calls [bt_ready_cb] at some point after
    [bt_enable], between passes of the loop. *)
Inductive fw_event : Set :=
| EvBtReady (err adv_rc : Z)
| EvLoop (io : sensor_io).

Definition fw_step (st : fw_state) (ev : fw_event) : fw_state :=
  match ev with
  | EvBtReady err adv_rc => bt_ready_cb err adv_rc st
  | EvLoop io => loop_iteration io st
  end.

Definition fw_run (evs : list fw_event) : fw_state :=
  fold_left fw_step evs fw_init.

Definition reachable (st : fw_state) : Prop := exists evs, st = fw_run evs.

(** ** Firmware 0.1.0 (the earlier [main.c], before the flags byte) *)

Module V0_1_0.

(** The static initialiser of [mfr_data]: nine bytes. *)
Definition mfr_data_init : list Z :=
  [ 0xFF; 0xFF;            (* company id *)
    0x00; 0x00;            (* temp *)
    0x00;                  (* hum *)
    0x00; 0x00;            (* lux *)
    0x00; 0x00             (* mag *) ].

Definition fw_init : fw_state :=
  {| mfr_data := mfr_data_init; ble_ready := false |}.

(** [bt_ready_cb(err)], unchanged between the releases. *)
Definition bt_ready_cb (err adv_rc : Z) (st : fw_state) : fw_state :=
  if negb (err =? 0) then st
  else if adv_rc =? 0
       then {| mfr_data := mfr_data st; ble_ready := true |}
       else st.

(** [update_ble(temp_cdeg, hum, lux, mag_ut)]. *)
Definition update_ble (temp_cdeg hum lux mag_ut : Z) (st : fw_state)
  : fw_state :=
  if negb (ble_ready st) then st
  else
    let d := mfr_data st in
    let d := <[2%nat := uint8 (Z.land temp_cdeg 0xFF)]> d in
    let d := <[3%nat := uint8 (Z.shiftr temp_cdeg 8)]> d in
    let d := <[4%nat := hum]> d in
    let d := <[5%nat := uint8 (Z.land lux 0xFF)]> d in
    let d := <[6%nat := uint8 (Z.shiftr lux 8)]> d in
    let d := <[7%nat := uint8 (Z.land mag_ut 0xFF)]> d in
    let d := <[8%nat := uint8 (Z.shiftr mag_ut 8)]> d in
    {| mfr_data := d; ble_ready := ble_ready st |}.

(** Body of [while (1)] up to the call of [update_ble].  In this release
    [flags] is an [int]; it is built as in 1.0.0 and goes to [printk] only. *)
Definition loop_locals (io : sensor_io) : locals :=
  let l := {| temp_cdeg := 0; hum_pct := 0; lux := 0; mag_ut := 0;
              flags := 0 |} in
  let l :=
    if si7021_ready io && (si7021_fetch io =? 0)
    then {| temp_cdeg := int16 (temp_expr (si7021_temp io));
            hum_pct := uint8 (val1 (si7021_hum io));
            lux := lux l; mag_ut := mag_ut l;
            flags := Z.lor (flags l) 1 |}
    else l in
  let l :=
    if veml6035_ready io && (veml6035_fetch io =? 0)
    then {| temp_cdeg := temp_cdeg l; hum_pct := hum_pct l;
            lux := uint16 (val1 (veml6035_light io));
            mag_ut := mag_ut l;
            flags := Z.lor (flags l) 2 |}
    else l in
  let l :=
    if si7210_ready io && (si7210_fetch io =? 0)
    then {| temp_cdeg := temp_cdeg l; hum_pct := hum_pct l;
            lux := lux l;
            mag_ut := int16 (mag_expr (si7210_mag io));
            flags := Z.lor (flags l) 4 |}
    else l in
  l.

(** One pass of the main loop: compute the locals, then [update_ble]. *)
Definition loop_iteration (io : sensor_io) (st : fw_state) : fw_state :=
  let l := loop_locals io in
  update_ble (temp_cdeg l) (hum_pct l) (lux l) (mag_ut l) st.

Definition fw_step (st : fw_state) (ev : fw_event) : fw_state :=
  match ev with
  | EvBtReady err adv_rc => bt_ready_cb err adv_rc st
  | EvLoop io => loop_iteration io st
  end.

Definition fw_run (evs : list fw_event) : fw_state :=
  fold_left fw_step evs fw_init.

End V0_1_0.

(** The two releases run side by side on the same inputs: the Bluetooth
    stack reports the same outcome to both, and both encoders are called
    with the same four measurements. *)
Inductive enc_event : Set :=
| EncBtReady (err adv_rc : Z)
| EncUpdate (temp_cdeg hum lux mag_ut flags : Z).

Definition enc_step_v1 (st : fw_state) (ev : enc_event) : fw_state :=
  match ev with
  | EncBtReady err adv_rc => bt_ready_cb err adv_rc st
  | EncUpdate t h l m f => update_ble t h l m f st
  end.

Definition enc_step_v0 (st : fw_state) (ev : enc_event) : fw_state :=
  match ev with
  | EncBtReady err adv_rc => V0_1_0.bt_ready_cb err adv_rc st
  | EncUpdate t h l m _ => V0_1_0.update_ble t h l m st
  end.

Definition enc_run_v1 (evs : list enc_event) : fw_state :=
  fold_left enc_step_v1 evs fw_init.

Definition enc_run_v0 (evs : list enc_event) : fw_state :=
  fold_left enc_step_v0 evs V0_1_0.fw_init.

(** ** The wire format as the specification words it (section 6) *)

(** Low and high byte of a 16-bit pattern. *)
Definition lo8 (u : Z) : Z := u mod 256.
Definition hi8 (u : Z) : Z := u / 256.

(** The identity tag, company id 0xFFFF. *)
Definition expected_tag : Z := 0xFFFF.

(** The ten bytes of the table in section 6: tag, temperature (signed,
    low byte first), humidity, illuminance (low byte first), magnetic
    field (signed, low byte first), flags.  A signed field is laid out as
    its 16-bit two's-complement pattern. *)
Definition spec_wire_layout (temperature humidity illuminance magnetic
                             flag_bits : Z) : list Z :=
  [ lo8 expected_tag; hi8 expected_tag;
    lo8 (uint16 temperature); hi8 (uint16 temperature);
    humidity;
    lo8 illuminance; hi8 illuminance;
    lo8 (uint16 magnetic); hi8 (uint16 magnetic);
    flag_bits ].

(** Little-endian interpretation of two bytes, unsigned and sign-extended. *)
Definition le_u16 (b0 b1 : Z) : Z := b0 + 256 * b1.
Definition le_i16 (b0 b1 : Z) : Z :=
  let u := le_u16 b0 b1 in if u <? 32768 then u else u - 65536.

Record wire_fields : Set := WireFields {
  w_tag : Z; w_temperature : Z; w_humidity : Z; w_illuminance : Z;
  w_magnetic : Z; w_flags : Z
}.

(** The little-endian interpretation of the byte ranges of section 6;
    defined on ten-byte payloads only. *)
Definition spec_interpret (payload : list Z) : option wire_fields :=
  match payload with
  | [b0; b1; b2; b3; b4; b5; b6; b7; b8; b9] =>
      Some {| w_tag := le_u16 b0 b1;
              w_temperature := le_i16 b2 b3;
              w_humidity := b4;
              w_illuminance := le_u16 b5 b6;
              w_magnetic := le_i16 b7 b8;
              w_flags := b9 |}
  | _ => None
  end.

(** The temperature a [sensor_value] denotes, [val1 + val2 * 10^-6] degrees,
    and its value in hundredths of a degree truncated toward zero. *)
Definition celsius (v : sensor_value) : Q :=
  (inject_Z (val1 v) + (val2 v # 1000000))%Q.

Definition Qtrunc_zero (q : Q) : Z :=
  if (Qnum q <? 0) then Qceiling q else Qfloor q.

Definition spec_centidegrees (v : sensor_value) : Z :=
  Qtrunc_zero (celsius v * inject_Z 100)%Q.

(** Zephyr's convention for [sensor_value]: both parts carry the sign of
    the value, and the fraction is below one unit. *)
Definition same_sign (v : sensor_value) : Prop :=
  (0 <= val1 v /\ 0 <= val2 v) \/ (val1 v <= 0 /\ val2 v <= 0).

Definition wf_sensor_value (v : sensor_value) : Prop :=
  is_int32 (val1 v) /\ is_int32 (val2 v) /\ same_sign v /\
  Z.abs (val2 v) < 1000000.

(** ** The bridge's Payload Codec *)

(** Modelled from the spec: the decode errors of section 7; the codec is
    host code and not among the sources. *)
Inductive DecodeError : Set := BadLength | UnrecognizedSource.

(** Modelled from the spec: the Reading of section 3; host code, not among
    the sources. *)
Record Reading : Set := MkReading {
  temperature_centidegrees : Z;
  humidity_percent : Z;
  illuminance_lux : Z;
  magnetic_field_microtesla : Z;
  reading_flags : Z;
  received_at : Z
}.

(** Modelled from the spec: [decode] of the Payload Codec (section 4.1),
    whose code (the host side of the repository) is not among the sources.
    The checks run in the order the section lists them: the length against
    the fixed layout, then the identity tag; the fields are the
    little-endian interpretation of their byte ranges.  [now] is the
    bridge-side time of the decode. *)
Definition decode (now : Z) (bytes : list Z) : Reading + DecodeError :=
  match spec_interpret bytes with
  | None => inr BadLength
  | Some f =>
      if w_tag f =? expected_tag
      then inl {| temperature_centidegrees := w_temperature f;
                  humidity_percent := w_humidity f;
                  illuminance_lux := w_illuminance f;
                  magnetic_field_microtesla := w_magnetic f;
                  reading_flags := w_flags f;
                  received_at := now |}
      else inr UnrecognizedSource
  end.

(** The leading two-byte tag of a payload, when it has one. *)
Definition leading_tag (bytes : list Z) : option Z :=
  match bytes with
  | b0 :: b1 :: _ => Some (le_u16 b0 b1)
  | _ => None
  end.

(** The two failure clauses of the codec as section 8 words them, for an
    arbitrary decoder [d]. *)
Definition fails_BadLength_on_other_lengths
  (d : list Z -> Reading + DecodeError) : Prop :=
  forall bytes, length bytes <> 10%nat -> d bytes = inr BadLength.

Definition fails_UnrecognizedSource_at_any_length
  (d : list Z -> Reading + DecodeError) : Prop :=
  forall bytes tag, leading_tag bytes = Some tag -> tag <> expected_tag ->
                    d bytes = inr UnrecognizedSource.

(** Modelled from the spec: the same codec with the identity tag matched
    before the length, the order in which section 8 words the tag clause
    (a mismatched tag fails whatever the length); host code, not among the
    sources.  An input too short to hold a tag has none to mismatch and
    fails on its length. *)
Definition decode_tag_first (now : Z) (bytes : list Z)
  : Reading + DecodeError :=
  match leading_tag bytes with
  | None => inr BadLength
  | Some tag =>
      if negb (tag =? expected_tag) then inr UnrecognizedSource
      else
        match spec_interpret bytes with
        | None => inr BadLength
        | Some f =>
            inl {| temperature_centidegrees := w_temperature f;
                   humidity_percent := w_humidity f;
                   illuminance_lux := w_illuminance f;
                   magnetic_field_microtesla := w_magnetic f;
                   reading_flags := w_flags f;
                   received_at := now |}
        end
  end.

(** An input on which the two failure clauses meet: its length is not the
    layout's and it leads with a tag other than the expected one. *)
Definition foreign_and_misfit (bytes : list Z) : Prop :=
  length bytes <> 10%nat /\
  exists tag, leading_tag bytes = Some tag /\ tag <> expected_tag.

(** The failure behaviour the two clauses fix between them, for a decoder
    [d]: each clause where the other is silent, one of the two errors
    where they meet, and success on a payload of the right length and
    tag. *)
Record codec_failures (d : list Z -> Reading + DecodeError) : Prop :=
  CodecFailures {
  fails_misfit :
    forall bytes, length bytes <> 10%nat ->
      leading_tag bytes = None \/ leading_tag bytes = Some expected_tag ->
      d bytes = inr BadLength;
  fails_foreign :
    forall bytes, length bytes = 10%nat ->
      leading_tag bytes <> Some expected_tag ->
      d bytes = inr UnrecognizedSource;
  fails_where_they_meet :
    forall bytes, foreign_and_misfit bytes ->
      d bytes = inr BadLength \/ d bytes = inr UnrecognizedSource;
  decodes_well_formed :
    forall bytes, length bytes = 10%nat ->
      leading_tag bytes = Some expected_tag ->
      exists r, d bytes = inl r
}.

(** ** The bridge's Reading Bus *)

Module ReadingBus.

(** Modelled from the spec: a subscriber's private, unbounded delivery
    channel (section 3); host code, not among the sources.  [pending] holds
    the Readings put into it and not yet taken, oldest first; [received]
    the Readings its handler has taken so far, in the order taken. *)
Record channel : Type := Channel {
  pending : list Reading;
  received : list Reading
}.

(** Modelled from the spec: the Reading Bus (sections 3, 4.3 and 5), whose
    code (the host side of the repository) is not among the sources.  The
    membership set maps a subscriber identity to its delivery channel.  A
    publish of the single producer is in flight from the moment it has
    snapshotted the membership set until it has written to every
    snapshotted channel; [in_flight] holds the Reading and the identities
    still to be written to. *)
Record bus : Type := Bus {
  registry : gmap nat channel;
  in_flight : option (Reading * gset nat)
}.

(** Modelled from the spec: the atomic steps of the execution contexts that
    share the bus (section 5): registering and removing a subscriber and
    snapshotting the membership set happen under the lock; a write to one
    subscriber's channel and a handler's take from its own channel are
    steps of their own, outside the lock. *)
Inductive action : Type :=
| Subscribe (s : nat)
| Unsubscribe (s : nat)
| PublishBegin (r : Reading)
| Deliver (s : nat)
| PublishEnd
| Receive (s : nat).

Definition empty_channel : channel := {| pending := []; received := [] |}.

Definition put (r : Reading) (c : channel) : channel :=
  {| pending := pending c ++ [r]; received := received c |}.

(** Modelled from the spec: the effect of each step (section 4.3).
    [subscribe] registers an empty channel and is idempotent per identity;
    [unsubscribe] is idempotent; [publish] snapshots the members, writes
    the Reading to each snapshotted subscriber that is still registered, in
    no particular order, and returns; the producer starts no publish while
    one is in flight.  [None] means the step is not enabled. *)
Definition step (b : bus) (a : action) : option bus :=
  match a with
  | Subscribe s =>
      match registry b !! s with
      | Some _ => Some b
      | None => Some {| registry := <[s := empty_channel]> (registry b);
                        in_flight := in_flight b |}
      end
  | Unsubscribe s =>
      Some {| registry := delete s (registry b); in_flight := in_flight b |}
  | PublishBegin r =>
      match in_flight b with
      | Some _ => None
      | None => Some {| registry := registry b;
                        in_flight := Some (r, dom (registry b)) |}
      end
  | Deliver s =>
      match in_flight b with
      | Some (r, todo) =>
          if decide (s ∈ todo)
          then Some {| registry := alter (put r) s (registry b);
                       in_flight := Some (r, todo ∖ {[s]}) |}
          else None
      | None => None
      end
  | PublishEnd =>
      match in_flight b with
      | Some (r, todo) =>
          if decide (todo = ∅)
          then Some {| registry := registry b; in_flight := None |}
          else None
      | None => None
      end
  | Receive s =>
      match registry b !! s with
      | Some c =>
          match pending c with
          | r :: q =>
              Some {| registry :=
                        <[s := {| pending := q;
                                  received := received c ++ [r] |}]>
                          (registry b);
                      in_flight := in_flight b |}
          | [] => None
          end
      | None => None
      end
  end.

(** An interleaving of steps, run from left to right. *)
Fixpoint run (b : bus) (tr : list action) : option bus :=
  match tr with
  | [] => Some b
  | a :: tr' =>
      match step b a with
      | Some b' => run b' tr'
      | None => None
      end
  end.

Definition idle_bus : bus := {| registry := ∅; in_flight := None |}.

(** The Readings a trace publishes, in publish order. *)
Fixpoint published (tr : list action) : list Reading :=
  match tr with
  | [] => []
  | PublishBegin r :: tr' => r :: published tr'
  | _ :: tr' => published tr'
  end.

(** Everything delivered to subscriber [s] so far, in delivery order: what
    its handler has taken followed by what still waits in its channel. *)
Definition delivered (b : bus) (s : nat) : list Reading :=
  match registry b !! s with
  | Some c => received c ++ pending c
  | None => []
  end.

(** The Reading the publish in flight has still to write to [s]. *)
Definition owed (b : bus) (s : nat) : list Reading :=
  match in_flight b with
  | Some (r, todo) => if decide (s ∈ todo) then [r] else []
  | None => []
  end.

(** [s] stays registered: the trace never removes it. *)
Definition never_unsubscribes (s : nat) (tr : list action) : Prop :=
  Forall (fun a => a <> Unsubscribe s) tr.

(** An example: subscribers 1 and 2 are registered; while two Readings are
    published, subscriber 3 joins, subscriber 2 leaves in the middle of the
    first publish and joins again, and subscriber 1 takes one Reading. *)
Definition reading_a : Reading :=
  {| temperature_centidegrees := 2314; humidity_percent := 52;
     illuminance_lux := 100; magnetic_field_microtesla := 511;
     reading_flags := 7; received_at := 1000 |}.

Definition reading_b : Reading :=
  {| temperature_centidegrees := 2310; humidity_percent := 53;
     illuminance_lux := 90; magnetic_field_microtesla := 510;
     reading_flags := 7; received_at := 2000 |}.

Definition two_subscribers : bus :=
  {| registry := <[1%nat := empty_channel]>
                   (<[2%nat := empty_channel]> ∅);
     in_flight := None |}.

Definition busy_trace : list action :=
  [ PublishBegin reading_a; Subscribe 3; Deliver 2; Unsubscribe 2;
    Deliver 1; PublishEnd;
    PublishBegin reading_b; Deliver 3; Receive 1; Subscribe 2;
    Deliver 1; PublishEnd ].

End ReadingBus.

(** ** Predicates on the firmware state *)

(** "The sample fetch of the device succeeded in this pass": the device
    was ready, so the fetch was attempted, and it returned 0. *)
Definition si7021_live (io : sensor_io) : bool :=
  si7021_ready io && (si7021_fetch io =? 0).
Definition veml6035_live (io : sensor_io) : bool :=
  veml6035_ready io && (veml6035_fetch io =? 0).
Definition si7210_live (io : sensor_io) : bool :=
  si7210_ready io && (si7210_fetch io =? 0).

(** In buffer [d], every field whose bit of [f] is clear is zero. *)
Definition gated_by (f : Z) (d : list Z) : Prop :=
  (Z.testbit f 0 = false ->
   d !! 2%nat = Some 0 /\ d !! 3%nat = Some 0 /\ d !! 4%nat = Some 0) /\
  (Z.testbit f 1 = false -> d !! 5%nat = Some 0 /\ d !! 6%nat = Some 0) /\
  (Z.testbit f 2 = false -> d !! 7%nat = Some 0 /\ d !! 8%nat = Some 0).

(** What holds of the globals in every state the firmware reaches. *)
Record fw_inv (st : fw_state) : Prop := FwInv {
  inv_length : length (mfr_data st) = 10%nat;
  inv_tag : take 2 (mfr_data st) = [0xFF; 0xFF];
  inv_idle : ble_ready st = false -> mfr_data st = mfr_data_init;
  inv_gated : exists f, mfr_data st !! 9%nat = Some f /\
                        gated_by f (mfr_data st)
}.

(** The nine-byte and the ten-byte buffer agree on the bytes they share. *)
Definition extends (d1 d0 : list Z) : Prop :=
  exists f, d1 = d0 ++ [f].

(** The two releases in step: the same readiness, the nine-byte buffer of
    0.1.0 a prefix of the ten-byte buffer of 1.0.0, and the flags byte of
    1.0.0 still zero while nothing has been written. *)
Record enc_related (s1 s0 : fw_state) : Prop := EncRelated {
  rel_ready : ble_ready s1 = ble_ready s0;
  rel_length : length (mfr_data s0) = 9%nat;
  rel_extends : extends (mfr_data s1) (mfr_data s0);
  rel_idle : ble_ready s1 = false ->
             mfr_data s1 = mfr_data_init /\
             mfr_data s0 = V0_1_0.mfr_data_init
}.

(** ** Two passes of the loop used as examples *)

(** All three devices deliver: 21.5 degrees, 40 percent, 300 lux, 0.44 G. *)
Definition io_all_live : sensor_io :=
  {| si7021_ready := true; si7021_fetch := 0;
     si7021_temp := {| val1 := 21; val2 := 500000 |};
     si7021_hum := {| val1 := 40; val2 := 0 |};
     veml6035_ready := true; veml6035_fetch := 0;
     veml6035_light := {| val1 := 300; val2 := 0 |};
     si7210_ready := true; si7210_fetch := 0;
     si7210_mag := {| val1 := 0; val2 := 440000 |} |}.

(** The light sensor's fetch fails with -EIO; the magnetometer is absent. *)
Definition io_temp_only : sensor_io :=
  {| si7021_ready := true; si7021_fetch := 0;
     si7021_temp := {| val1 := -3; val2 := -250000 |};
     si7021_hum := {| val1 := 300; val2 := 0 |};
     veml6035_ready := true; veml6035_fetch := -5;
     veml6035_light := {| val1 := 7; val2 := 0 |};
     si7210_ready := false; si7210_fetch := 0;
     si7210_mag := {| val1 := 9; val2 := 0 |} |}.

(** ** The debug line of the main loop *)

(** C's [%] and [abs] on [int]. *)
Definition rem32 (a b : Z) : Z := int32 (Z.rem a b).
Definition abs32 (a : Z) : Z := int32 (Z.abs a).

(** The six integers the loop hands to [printk], in the order of the
    format: [temp_cdeg / 100] for the first [%d], [abs(temp_cdeg % 100)]
    for [%02d], then [hum_pct], [lux], [mag_ut] and [flags].  The format
    prints the first two as one decimal number, separated by a point. *)
Definition printk_args (l : locals) : list Z :=
  [ div32 (temp_cdeg l) 100; abs32 (rem32 (temp_cdeg l) 100);
    hum_pct l; lux l; mag_ut l; flags l ].

(** The locals with another temperature. *)
Definition with_temp_cdeg (t : Z) (l : locals) : locals :=
  {| temp_cdeg := t; hum_pct := hum_pct l; lux := lux l;
     mag_ut := mag_ut l; flags := flags l |}.

(** ** Predicates on events and driver reports *)

(** The event that sets [ble_ready]: the stack reports no error and
    [bt_le_adv_start] returns 0. *)
Definition bt_up (ev : fw_event) : bool :=
  match ev with
  | EvBtReady err adv_rc => (err =? 0) && (adv_rc =? 0)
  | EvLoop _ => false
  end.

(** Two driver reports agree on everything a pass reads: which fetches
    succeed and, for a device whose fetch succeeds, the temperature, the
    integer part of the humidity, the integer part of the illuminance and
    the magnetic field. *)
Record agree_on_live (io1 io2 : sensor_io) : Prop := AgreeOnLive {
  agree_si7021 : si7021_live io1 = si7021_live io2;
  agree_veml6035 : veml6035_live io1 = veml6035_live io2;
  agree_si7210 : si7210_live io1 = si7210_live io2;
  agree_temp : si7021_live io1 = true ->
               si7021_temp io1 = si7021_temp io2 /\
               val1 (si7021_hum io1) = val1 (si7021_hum io2);
  agree_light : veml6035_live io1 = true ->
                val1 (veml6035_light io1) = val1 (veml6035_light io2);
  agree_mag : si7210_live io1 = true -> si7210_mag io1 = si7210_mag io2
}.

(** The field strength a [sensor_value] in Gauss denotes, in microtesla
    (1 G = 100 microtesla), truncated toward zero. *)
Definition gauss (v : sensor_value) : Q :=
  (inject_Z (val1 v) + (val2 v # 1000000))%Q.

Definition spec_microtesla (v : sensor_value) : Z :=
  Qtrunc_zero (gauss v * inject_Z 100)%Q.

(** A pass in which the Si7021 is not ready and the two other fetches
    fail: the three [sensor_value] structs are never written, here shown
    with arbitrary contents. *)
Definition io_none_live : sensor_io :=
  {| si7021_ready := false; si7021_fetch := 0;
     si7021_temp := {| val1 := 12345; val2 := -7 |};
     si7021_hum := {| val1 := -1; val2 := 99 |};
     veml6035_ready := true; veml6035_fetch := -5;
     veml6035_light := {| val1 := 70000; val2 := 1 |};
     si7210_ready := true; si7210_fetch := -16;
     si7210_mag := {| val1 := -400; val2 := 3 |} |}.

(** The same pass with other leftovers in the structs. *)
Definition io_none_live' : sensor_io :=
  {| si7021_ready := false; si7021_fetch := -5;
     si7021_temp := {| val1 := 0; val2 := 0 |};
     si7021_hum := {| val1 := 55; val2 := 0 |};
     veml6035_ready := true; veml6035_fetch := -5;
     veml6035_light := {| val1 := 1; val2 := 2 |};
     si7210_ready := true; si7210_fetch := -16;
     si7210_mag := {| val1 := 3; val2 := 4 |} |}.

(** A pass at 328 degrees and 70000 lux, both beyond what their fields
    hold; the magnetometer is not ready. *)
Definition io_hot : sensor_io :=
  {| si7021_ready := true; si7021_fetch := 0;
     si7021_temp := {| val1 := 328; val2 := 0 |};
     si7021_hum := {| val1 := 50; val2 := 0 |};
     veml6035_ready := true; veml6035_fetch := 0;
     veml6035_light := {| val1 := 70000; val2 := 0 |};
     si7210_ready := false; si7210_fetch := 0;
     si7210_mag := {| val1 := 0; val2 := 0 |} |}.

(** A pass at half a degree below zero. *)
Definition io_just_below_zero : sensor_io :=
  {| si7021_ready := true; si7021_fetch := 0;
     si7021_temp := {| val1 := 0; val2 := -500000 |};
     si7021_hum := {| val1 := 80; val2 := 0 |};
     veml6035_ready := true; veml6035_fetch := 0;
     veml6035_light := {| val1 := 12; val2 := 0 |};
     si7210_ready := true; si7210_fetch := 0;
     si7210_mag := {| val1 := 0; val2 := 440000 |} |}.

(** A history in which Bluetooth never comes up: the stack reports an
    error, then [bt_le_adv_start] fails, with passes of the loop around. *)
Definition history_without_advertising : list fw_event :=
  [ EvLoop io_all_live; EvBtReady (-5) 0; EvLoop io_hot;
    EvBtReady 0 (-12); EvLoop io_temp_only ].

(** * Properties *)

(** ** Integer conversions *)

Section Conversions.

Lemma uint8_id z : is_uint8 z -> uint8 z = z.
Proof.
  unfold is_uint8, uint8, to_unsigned. intros H.
  apply Z.mod_small. change (2 ^ 8) with 256. lia.
Qed.

Lemma uint8_range z : is_uint8 (uint8 z).
Proof.
  unfold is_uint8, uint8, to_unsigned. change (2 ^ 8) with 256.
  pose proof (Z.mod_pos_bound z 256). lia.
Qed.

Lemma uint16_range z : is_uint16 (uint16 z).
Proof.
  unfold is_uint16, uint16, to_unsigned. change (2 ^ 16) with 65536.
  pose proof (Z.mod_pos_bound z 65536). lia.
Qed.

Lemma uint16_id z : is_uint16 z -> uint16 z = z.
Proof.
  unfold is_uint16, uint16, to_unsigned. intros H.
  apply Z.mod_small. change (2 ^ 16) with 65536. lia.
Qed.

Lemma int16_id z : is_int16 z -> int16 z = z.
Proof.
  unfold is_int16, int16, to_signed. intros H.
  change (2 ^ 16) with 65536. change (2 ^ (16 - 1)) with 32768.
  destruct (Z.ltb_spec (z mod 65536) 32768) as [Hlt | Hge];
    Z.to_euclidean_division_equations; lia.
Qed.

Lemma int16_range z : is_int16 (int16 z).
Proof.
  unfold is_int16, int16, to_signed.
  change (2 ^ 16) with 65536. change (2 ^ (16 - 1)) with 32768.
  pose proof (Z.mod_pos_bound z 65536).
  destruct (Z.ltb_spec (z mod 65536) 32768); lia.
Qed.

Lemma int32_id z : is_int32 z -> int32 z = z.
Proof.
  unfold is_int32, int32, to_signed. intros H.
  change (2 ^ 32) with 4294967296. change (2 ^ (32 - 1)) with 2147483648.
  destruct (Z.ltb_spec (z mod 4294967296) 2147483648) as [Hlt | Hge];
    Z.to_euclidean_division_equations; lia.
Qed.

(** [x & 0xFF] keeps the low byte, also of a negative [x]. *)
Lemma land_0xFF x : Z.land x 0xFF = x mod 256.
Proof. change 0xFF with (Z.ones 8). now rewrite Z.land_ones. Qed.

(** [x >> 8] is the floor of [x / 256] (arithmetic shift). *)
Lemma shiftr_8 x : Z.shiftr x 8 = x / 256.
Proof. now rewrite Z.shiftr_div_pow2. Qed.

Lemma low_byte_store x : uint8 (Z.land x 0xFF) = lo8 (uint16 x).
Proof.
  rewrite land_0xFF. unfold uint8, uint16, to_unsigned, lo8.
  change (2 ^ 8) with 256. change (2 ^ 16) with 65536.
  Z.to_euclidean_division_equations; lia.
Qed.

Lemma high_byte_store x : uint8 (Z.shiftr x 8) = hi8 (uint16 x).
Proof.
  rewrite shiftr_8. unfold uint8, uint16, to_unsigned, hi8.
  change (2 ^ 8) with 256. change (2 ^ 16) with 65536.
  Z.to_euclidean_division_equations; lia.
Qed.

(** Two bytes, low first, read back as the 16-bit pattern they hold. *)
Lemma le_u16_split u : le_u16 (lo8 u) (hi8 u) = u.
Proof. unfold le_u16, lo8, hi8. Z.to_euclidean_division_equations; lia. Qed.

Lemma le_i16_split x : is_int16 x ->
  le_i16 (lo8 (uint16 x)) (hi8 (uint16 x)) = x.
Proof.
  intros H. unfold le_i16. rewrite le_u16_split.
  change (uint16 x) with (x mod 2 ^ 16). change (2 ^ 16) with 65536.
  unfold is_int16 in H.
  destruct (Z.ltb_spec (x mod 65536) 32768);
    Z.to_euclidean_division_equations; lia.
Qed.

Lemma lo8_range u : is_uint8 (lo8 u).
Proof.
  unfold is_uint8, lo8. pose proof (Z.mod_pos_bound u 256). lia.
Qed.

Lemma hi8_range u : is_uint16 u -> is_uint8 (hi8 u).
Proof.
  unfold is_uint8, is_uint16, hi8. intros H.
  Z.to_euclidean_division_equations; lia.
Qed.

End Conversions.

(** ** The encoder [update_ble] *)

Section Encoder.

Lemma update_ble_idle t h l m f st :
  ble_ready st = false -> update_ble t h l m f st = st.
Proof. intros H. unfold update_ble. now rewrite H. Qed.

Lemma update_ble_keeps_ready t h l m f st :
  ble_ready (update_ble t h l m f st) = ble_ready st.
Proof. unfold update_ble. destruct (ble_ready st) eqn:E; simpl; auto. Qed.

(** With [ble_ready] set, the call overwrites bytes 2 to 9 and leaves the
    company id alone. *)
Lemma update_ble_ready_bytes t h l m f st :
  ble_ready st = true -> length (mfr_data st) = 10%nat ->
  mfr_data (update_ble t h l m f st) =
    take 2 (mfr_data st) ++
    [ uint8 (Z.land t 0xFF); uint8 (Z.shiftr t 8); h;
      uint8 (Z.land l 0xFF); uint8 (Z.shiftr l 8);
      uint8 (Z.land m 0xFF); uint8 (Z.shiftr m 8); f ].
Proof.
  destruct st as [d r]. simpl. intros -> Hlen. unfold update_ble. simpl.
  do 10 (destruct d as [| ? d]; [discriminate Hlen |]).
  destruct d; [reflexivity | discriminate Hlen].
Qed.

Lemma update_ble_ready_layout t h l m f st :
  is_uint16 l ->
  ble_ready st = true -> length (mfr_data st) = 10%nat ->
  take 2 (mfr_data st) = [0xFF; 0xFF] ->
  mfr_data (update_ble t h l m f st) = spec_wire_layout t h l m f.
Proof.
  intros Hl Hr Hlen Htag.
  rewrite update_ble_ready_bytes, Htag by assumption.
  rewrite !low_byte_store, !high_byte_store, (uint16_id l Hl).
  reflexivity.
Qed.

Lemma spec_interpret_layout t h l m f :
  is_int16 t -> is_uint16 l -> is_int16 m ->
  spec_interpret (spec_wire_layout t h l m f) =
    Some {| w_tag := expected_tag; w_temperature := t; w_humidity := h;
            w_illuminance := l; w_magnetic := m; w_flags := f |}.
Proof.
  intros Ht Hl Hm. unfold spec_wire_layout, spec_interpret.
  now rewrite !le_u16_split, !le_i16_split.
Qed.

Lemma spec_wire_layout_bytes t h l m f :
  is_uint8 h -> is_uint16 l -> is_uint8 f ->
  Forall is_uint8 (spec_wire_layout t h l m f).
Proof.
  intros Hh Hl Hf. unfold spec_wire_layout.
  pose proof (uint16_range t). pose proof (uint16_range m).
  assert (is_uint16 expected_tag) by (unfold is_uint16, expected_tag; lia).
  repeat (apply Forall_cons; split);
    auto using Forall_nil, lo8_range, hi8_range.
Qed.

End Encoder.

(** ** The loop body *)

Section LoopBody.

Variable io : sensor_io.

(** The flags the loop hands to [update_ble]: one bit per live device. *)
Lemma loop_flags :
  flags (loop_locals io) =
    (if si7021_live io then 1 else 0) + (if veml6035_live io then 2 else 0)
    + (if si7210_live io then 4 else 0).
Proof.
  unfold loop_locals, si7021_live, veml6035_live, si7210_live.
  destruct (si7021_ready io && (si7021_fetch io =? 0));
    destruct (veml6035_ready io && (veml6035_fetch io =? 0));
    destruct (si7210_ready io && (si7210_fetch io =? 0)); reflexivity.
Qed.

Lemma loop_temp_cdeg :
  temp_cdeg (loop_locals io) =
    if si7021_live io then int16 (temp_expr (si7021_temp io)) else 0.
Proof.
  unfold loop_locals, si7021_live.
  destruct (si7021_ready io && (si7021_fetch io =? 0));
    destruct (veml6035_ready io && (veml6035_fetch io =? 0));
    destruct (si7210_ready io && (si7210_fetch io =? 0)); reflexivity.
Qed.

Lemma loop_hum_pct :
  hum_pct (loop_locals io) =
    if si7021_live io then uint8 (val1 (si7021_hum io)) else 0.
Proof.
  unfold loop_locals, si7021_live.
  destruct (si7021_ready io && (si7021_fetch io =? 0));
    destruct (veml6035_ready io && (veml6035_fetch io =? 0));
    destruct (si7210_ready io && (si7210_fetch io =? 0)); reflexivity.
Qed.

Lemma loop_lux :
  lux (loop_locals io) =
    if veml6035_live io then uint16 (val1 (veml6035_light io)) else 0.
Proof.
  unfold loop_locals, veml6035_live.
  destruct (si7021_ready io && (si7021_fetch io =? 0));
    destruct (veml6035_ready io && (veml6035_fetch io =? 0));
    destruct (si7210_ready io && (si7210_fetch io =? 0)); reflexivity.
Qed.

Lemma loop_mag_ut :
  mag_ut (loop_locals io) =
    if si7210_live io then int16 (mag_expr (si7210_mag io)) else 0.
Proof.
  unfold loop_locals, si7210_live.
  destruct (si7021_ready io && (si7021_fetch io =? 0));
    destruct (veml6035_ready io && (veml6035_fetch io =? 0));
    destruct (si7210_ready io && (si7210_fetch io =? 0)); reflexivity.
Qed.

(** The bits of the flags, read off the three conditions. *)
Lemma loop_flags_bits :
  Z.testbit (flags (loop_locals io)) 0 = si7021_live io /\
  Z.testbit (flags (loop_locals io)) 1 = veml6035_live io /\
  Z.testbit (flags (loop_locals io)) 2 = si7210_live io /\
  (forall k, 3 <= k -> Z.testbit (flags (loop_locals io)) k = false).
Proof.
  rewrite loop_flags.
  destruct (si7021_live io), (veml6035_live io), (si7210_live io);
    (repeat split; [reflexivity .. |]);
    intros k Hk;
    (destruct k as [| p | p]; [lia | | lia]);
    (destruct p as [[p | p |] | [p | p |] |]; try lia; try reflexivity);
    destruct p; reflexivity.
Qed.

(** The locals are in the range of their C types. *)
Lemma loop_locals_typed :
  is_int16 (temp_cdeg (loop_locals io)) /\
  is_uint8 (hum_pct (loop_locals io)) /\
  is_uint16 (lux (loop_locals io)) /\
  is_int16 (mag_ut (loop_locals io)) /\
  is_uint8 (flags (loop_locals io)).
Proof.
  rewrite loop_temp_cdeg, loop_hum_pct, loop_lux, loop_mag_ut, loop_flags.
  repeat split;
    try (destruct (si7021_live io), (veml6035_live io), (si7210_live io);
         simpl; lia);
    try (destruct (si7021_live io);
         [ first [ apply int16_range | apply uint8_range ] | lia ]);
    try (destruct (veml6035_live io); [ apply uint16_range | lia ]);
    try (destruct (si7210_live io); [ apply int16_range | lia ]).
Qed.

End LoopBody.

(** ** The states the firmware reaches *)

Section Reachable.

Lemma fw_inv_init : fw_inv fw_init.
Proof.
  split; try reflexivity.
  exists 0. split; [reflexivity |].
  repeat split; reflexivity.
Qed.

Lemma fw_inv_bt_ready_cb err adv_rc st :
  fw_inv st -> fw_inv (bt_ready_cb err adv_rc st).
Proof.
  intros [Hlen Htag Hidle Hg]. unfold bt_ready_cb.
  destruct (negb (err =? 0)); [now split |].
  destruct (adv_rc =? 0); [| now split].
  split; simpl; auto. discriminate.
Qed.

(** A field the loop left at zero is stored as zero bytes. *)
Lemma loop_locals_gated io :
  gated_by (flags (loop_locals io))
    (spec_wire_layout (temp_cdeg (loop_locals io)) (hum_pct (loop_locals io))
       (lux (loop_locals io)) (mag_ut (loop_locals io))
       (flags (loop_locals io))).
Proof.
  destruct (loop_flags_bits io) as (H0 & H1 & H2 & _).
  unfold gated_by. rewrite H0, H1, H2.
  rewrite loop_temp_cdeg, loop_hum_pct, loop_lux, loop_mag_ut.
  split; [| split]; intros Hclear; rewrite Hclear; repeat split.
Qed.

Lemma loop_iteration_ready io st :
  fw_inv st -> ble_ready st = true ->
  mfr_data (loop_iteration io st) =
    spec_wire_layout (temp_cdeg (loop_locals io)) (hum_pct (loop_locals io))
      (lux (loop_locals io)) (mag_ut (loop_locals io))
      (flags (loop_locals io)).
Proof.
  intros [Hlen Htag _ _] Hr. unfold loop_iteration.
  apply update_ble_ready_layout; auto.
  apply (loop_locals_typed io).
Qed.

Lemma loop_iteration_idle io st :
  ble_ready st = false -> loop_iteration io st = st.
Proof. intros Hr. unfold loop_iteration. now apply update_ble_idle. Qed.

Lemma fw_inv_loop_iteration io st :
  fw_inv st -> fw_inv (loop_iteration io st).
Proof.
  intros Hinv. destruct (ble_ready st) eqn:Hr.
  - assert (Hd := loop_iteration_ready io st Hinv Hr).
    split.
    + now rewrite Hd.
    + now rewrite Hd.
    + unfold loop_iteration. rewrite update_ble_keeps_ready. congruence.
    + rewrite Hd. exists (flags (loop_locals io)).
      split; [reflexivity | apply loop_locals_gated].
  - now rewrite loop_iteration_idle.
Qed.

Lemma fw_inv_step st ev : fw_inv st -> fw_inv (fw_step st ev).
Proof.
  destruct ev; simpl; auto using fw_inv_bt_ready_cb, fw_inv_loop_iteration.
Qed.

Lemma fw_inv_fold evs : forall st,
  fw_inv st -> fw_inv (fold_left fw_step evs st).
Proof.
  induction evs as [| ev evs IH]; simpl; intros st Hinv; [assumption |].
  apply IH, fw_inv_step, Hinv.
Qed.

Lemma reachable_inv st : reachable st -> fw_inv st.
Proof. intros [evs ->]. apply fw_inv_fold, fw_inv_init. Qed.

Lemma reachable_init : reachable fw_init.
Proof. now exists []. Qed.

Lemma reachable_step st ev : reachable st -> reachable (fw_step st ev).
Proof.
  intros [evs ->]. exists (evs ++ [ev]).
  unfold fw_run. now rewrite fold_left_app.
Qed.

End Reachable.

(** ** The wire layout that [update_ble] produces *)

Section WireLayout.

(** The state right after the Bluetooth stack came up and advertising
    started: [bt_ready_cb(0)] with [bt_le_adv_start] returning 0. *)
Lemma advertising_reachable : reachable (bt_ready_cb 0 0 fw_init).
Proof. exists [EvBtReady 0 0]. reflexivity. Qed.

(** C1, as amended.  In every state the firmware reaches with [ble_ready]
    set, and for every int16 temperature, uint8 humidity, uint16
    illuminance, int16 magnetic field and uint8 flags, [update_ble] leaves
    exactly the ten bytes of section 6 in [mfr_data]: the tag 0xFF 0xFF,
    the temperature low byte first, the humidity, the illuminance low byte
    first, the magnetic field low byte first, the flags; every entry is a
    byte, and the little-endian interpretation of the byte ranges gives the
    encoded values back. *)
Theorem update_ble_wire_layout st t h l m f :
  is_int16 t -> is_uint8 h -> is_uint16 l -> is_int16 m -> is_uint8 f ->
  reachable st -> ble_ready st = true ->
  mfr_data (update_ble t h l m f st) =
    [ 0xFF; 0xFF; lo8 (uint16 t); hi8 (uint16 t); h; lo8 l; hi8 l;
      lo8 (uint16 m); hi8 (uint16 m); f ] /\
  Forall is_uint8 (mfr_data (update_ble t h l m f st)) /\
  spec_interpret (mfr_data (update_ble t h l m f st)) =
    Some {| w_tag := 0xFFFF; w_temperature := t; w_humidity := h;
            w_illuminance := l; w_magnetic := m; w_flags := f |}.
Proof.
  intros Ht Hh Hl Hm Hf Hreach Hready.
  destruct (reachable_inv st Hreach) as [Hlen Htag _ _].
  rewrite (update_ble_ready_layout t h l m f st Hl Hready Hlen Htag).
  split; [reflexivity | split].
  - now apply spec_wire_layout_bytes.
  - now apply spec_interpret_layout.
Qed.

Lemma update_ble_wire_layout_witness :
  reachable (bt_ready_cb 0 0 fw_init) /\
  ble_ready (bt_ready_cb 0 0 fw_init) = true /\
  mfr_data (update_ble (-2) 52 100 511 7 (bt_ready_cb 0 0 fw_init)) =
    [ 0xFF; 0xFF; 0xFE; 0xFF; 0x34; 0x64; 0x00; 0xFF; 0x01; 0x07 ].
Proof.
  split; [exact advertising_reachable | split; [reflexivity |]].
  refine (proj1 (update_ble_wire_layout (bt_ready_cb 0 0 fw_init)
                   (-2) 52 100 511 7 _ _ _ _ _ advertising_reachable _));
    first [ reflexivity | unfold is_int16, is_uint8, is_uint16; lia ].
Defined.

(** C1 as stated fails before advertising has started: the guard on
    [ble_ready] returns at once and the buffer keeps its initialiser. *)
Lemma update_ble_before_advertising :
  reachable fw_init /\
  mfr_data (update_ble 2314 52 100 511 7 fw_init) =
    [ 0xFF; 0xFF; 0; 0; 0; 0; 0; 0; 0; 0 ] /\
  mfr_data (update_ble 2314 52 100 511 7 fw_init) <>
    [ 0xFF; 0xFF; lo8 (uint16 2314); hi8 (uint16 2314); 52;
      lo8 100; hi8 100; lo8 (uint16 511); hi8 (uint16 511); 7 ].
Proof.
  split; [exact reachable_init | split; [reflexivity | discriminate]].
Qed.

(** C2, as amended.  With [ble_ready] set, [update_ble] applied to
    (2314, 52, 100, 511, 7) yields FF FF 0A 09 34 64 00 FF 01 07, the
    illuminance bytes being 64 00; that payload reads as 2314 centi-degrees,
    52 percent, 100 lux, 511 microtesla and flags 0x07.  The payload with
    the illuminance bytes in the order 00 64 reads as 25600 lux. *)
Theorem scenario_payload st :
  reachable st -> ble_ready st = true ->
  mfr_data (update_ble 2314 52 100 511 0x07 st) =
    [ 0xFF; 0xFF; 0x0A; 0x09; 0x34; 0x64; 0x00; 0xFF; 0x01; 0x07 ] /\
  spec_interpret
    [ 0xFF; 0xFF; 0x0A; 0x09; 0x34; 0x64; 0x00; 0xFF; 0x01; 0x07 ] =
    Some {| w_tag := 0xFFFF; w_temperature := 2314; w_humidity := 52;
            w_illuminance := 100; w_magnetic := 511; w_flags := 0x07 |} /\
  spec_interpret
    [ 0xFF; 0xFF; 0x0A; 0x09; 0x34; 0x00; 0x64; 0xFF; 0x01; 0x07 ] =
    Some {| w_tag := 0xFFFF; w_temperature := 2314; w_humidity := 52;
            w_illuminance := 25600; w_magnetic := 511; w_flags := 0x07 |}.
Proof.
  intros Hreach Hready.
  destruct (reachable_inv st Hreach) as [Hlen Htag _ _].
  split; [| split; reflexivity].
  rewrite update_ble_ready_layout; auto.
  unfold is_uint16; lia.
Qed.

Lemma scenario_payload_witness :
  reachable (bt_ready_cb 0 0 fw_init) /\
  ble_ready (bt_ready_cb 0 0 fw_init) = true /\
  mfr_data (update_ble 2314 52 100 511 0x07 (bt_ready_cb 0 0 fw_init)) =
    [ 0xFF; 0xFF; 0x0A; 0x09; 0x34; 0x64; 0x00; 0xFF; 0x01; 0x07 ].
Proof.
  split; [exact advertising_reachable | split; [reflexivity |]].
  exact (proj1 (scenario_payload (bt_ready_cb 0 0 fw_init)
                  advertising_reachable eq_refl)).
Defined.

(** C2 as stated fails: read low byte first, the bytes 00 64 at offsets 5
    and 6 are 25600 lux, not 100, and the encoder, advertising, does not
    produce the printed payload from (2314, 52, 100, 511, 7). *)
Lemma scenario_payload_as_printed :
  (exists fields,
     spec_interpret
       [ 0xFF; 0xFF; 0x0A; 0x09; 0x34; 0x00; 0x64; 0xFF; 0x01; 0x07 ] =
       Some fields /\
     w_illuminance fields = 25600 /\ w_illuminance fields <> 100) /\
  ble_ready (bt_ready_cb 0 0 fw_init) = true /\
  mfr_data (update_ble 2314 52 100 511 0x07 (bt_ready_cb 0 0 fw_init)) <>
    [ 0xFF; 0xFF; 0x0A; 0x09; 0x34; 0x00; 0x64; 0xFF; 0x01; 0x07 ].
Proof.
  split; [| split; [reflexivity | discriminate]].
  eexists. split; [reflexivity | split; [reflexivity | discriminate]].
Qed.

(** C3, as amended.  Round trip: in every state the firmware reaches with
    [ble_ready] set, encoding int16 temperature, uint8 humidity, uint16
    illuminance, int16 magnetic field and uint8 flags with [update_ble] and
    reading the ten bytes back as the little-endian interpretation of the
    byte ranges of section 6 yields the original values. *)
Theorem update_ble_round_trip st t h l m f :
  is_int16 t -> is_uint8 h -> is_uint16 l -> is_int16 m -> is_uint8 f ->
  reachable st -> ble_ready st = true ->
  exists fields,
    spec_interpret (mfr_data (update_ble t h l m f st)) = Some fields /\
    w_temperature fields = t /\ w_humidity fields = h /\
    w_illuminance fields = l /\ w_magnetic fields = m /\
    w_flags fields = f.
Proof.
  intros Ht Hh Hl Hm Hf Hreach Hready.
  destruct (reachable_inv st Hreach) as [Hlen Htag _ _].
  rewrite (update_ble_ready_layout t h l m f st Hl Hready Hlen Htag).
  rewrite spec_interpret_layout by assumption.
  eexists. split; [reflexivity |]. repeat split.
Qed.

Lemma update_ble_round_trip_witness :
  reachable (bt_ready_cb 0 0 fw_init) /\
  ble_ready (bt_ready_cb 0 0 fw_init) = true /\
  exists fields,
    spec_interpret
      (mfr_data (update_ble (-1234) 255 65535 (-32768) 4
                   (bt_ready_cb 0 0 fw_init))) = Some fields /\
    w_temperature fields = -1234 /\ w_humidity fields = 255 /\
    w_illuminance fields = 65535 /\ w_magnetic fields = -32768 /\
    w_flags fields = 4.
Proof.
  split; [exact advertising_reachable | split; [reflexivity |]].
  refine (update_ble_round_trip (bt_ready_cb 0 0 fw_init)
            (-1234) 255 65535 (-32768) 4 _ _ _ _ _
            advertising_reachable _);
    first [ reflexivity | unfold is_int16, is_uint8, is_uint16; lia ].
Defined.

(** C3 as stated fails before advertising has started: the call leaves the
    initialiser in place, which reads back as zeros. *)
Lemma round_trip_before_advertising :
  reachable fw_init /\
  exists fields,
    spec_interpret (mfr_data (update_ble 2314 52 100 511 7 fw_init)) =
      Some fields /\
    w_temperature fields = 0 /\ w_temperature fields <> 2314.
Proof.
  split; [exact reachable_init |].
  eexists. split; [reflexivity | split; [reflexivity | discriminate]].
Qed.

End WireLayout.

(** ** The main loop *)

Section MainLoop.

Lemma live_iff (ready : bool) (rc : Z) :
  ready && (rc =? 0) = true <-> ready = true /\ rc = 0.
Proof. rewrite andb_true_iff, Z.eqb_eq. reflexivity. Qed.

(** C5.  In every pass of the main loop the flags byte handed to
    [update_ble] has bit 0 set exactly when the Si7021 fetch succeeded in
    that pass (the device was ready and [sensor_sample_fetch] returned 0),
    bit 1 exactly when the VEML6035 fetch succeeded, bit 2 exactly when the
    Si7210 fetch succeeded, and bits 3 to 7 (and all above) clear; with
    [ble_ready] set, [update_ble] places that byte at offset 9 of the
    advertisement. *)
Theorem loop_flags_track_fetches io :
  let f := flags (loop_locals io) in
  (Z.testbit f 0 = true <-> si7021_ready io = true /\ si7021_fetch io = 0) /\
  (Z.testbit f 1 = true <->
     veml6035_ready io = true /\ veml6035_fetch io = 0) /\
  (Z.testbit f 2 = true <-> si7210_ready io = true /\ si7210_fetch io = 0) /\
  (forall k, 3 <= k -> Z.testbit f k = false) /\
  (forall st, reachable st -> ble_ready st = true ->
              mfr_data (loop_iteration io st) !! 9%nat = Some f).
Proof.
  intros f. subst f.
  destruct (loop_flags_bits io) as (H0 & H1 & H2 & Hres).
  rewrite H0, H1, H2.
  unfold si7021_live, veml6035_live, si7210_live.
  split; [apply live_iff |].
  split; [apply live_iff |].
  split; [apply live_iff |].
  split; [exact Hres |].
  - intros st Hreach Hready.
    now rewrite (loop_iteration_ready io st (reachable_inv st Hreach) Hready).
Qed.

Lemma loop_flags_track_fetches_witness :
  flags (loop_locals io_temp_only) = 1 /\
  (forall k, 3 <= k -> Z.testbit (flags (loop_locals io_temp_only)) k = false)
  /\ reachable (bt_ready_cb 0 0 fw_init)
  /\ ble_ready (bt_ready_cb 0 0 fw_init) = true
  /\ mfr_data (loop_iteration io_temp_only (bt_ready_cb 0 0 fw_init))
       !! 9%nat = Some 1.
Proof.
  destruct (loop_flags_track_fetches io_temp_only) as (_ & _ & _ & Hres & Hput).
  split; [reflexivity | split; [exact Hres |]].
  split; [exact advertising_reachable | split; [reflexivity |]].
  exact (Hput (bt_ready_cb 0 0 fw_init) advertising_reachable eq_refl).
Defined.

(** C6.  After every pass of the main loop, from any state the firmware
    reaches, a field whose flag bit is clear is zero in the advertisement:
    bit 0 clear gives zero temperature and humidity bytes, bit 1 clear zero
    illuminance bytes, bit 2 clear zero magnetic-field bytes.  This holds
    for the bit of the loop's [flags] at the end of the pass and for the
    bit of the flags byte in the buffer. *)
Theorem cleared_flag_zero_field io st :
  reachable st ->
  gated_by (flags (loop_locals io)) (mfr_data (loop_iteration io st)) /\
  (exists f, mfr_data (loop_iteration io st) !! 9%nat = Some f /\
             gated_by f (mfr_data (loop_iteration io st))).
Proof.
  intros Hreach. pose proof (reachable_inv st Hreach) as Hinv.
  split.
  - destruct (ble_ready st) eqn:Hready.
    + rewrite (loop_iteration_ready io st Hinv Hready).
      apply loop_locals_gated.
    + rewrite (loop_iteration_idle io st Hready).
      rewrite (inv_idle st Hinv Hready).
      repeat split; reflexivity.
  - apply (inv_gated _ (fw_inv_loop_iteration io st Hinv)).
Qed.

Lemma cleared_flag_zero_field_witness :
  reachable (bt_ready_cb 0 0 fw_init) /\
  gated_by (flags (loop_locals io_temp_only))
    (mfr_data (loop_iteration io_temp_only (bt_ready_cb 0 0 fw_init))) /\
  mfr_data (loop_iteration io_temp_only (bt_ready_cb 0 0 fw_init)) =
    [ 0xFF; 0xFF; 0xBB; 0xFE; 0x2C; 0; 0; 0; 0; 1 ].
Proof.
  split; [exact advertising_reachable |].
  split; [| reflexivity].
  exact (proj1 (cleared_flag_zero_field io_temp_only
                  (bt_ready_cb 0 0 fw_init) advertising_reachable)).
Defined.

(** C10.  When the Si7021 fetch succeeds, the humidity byte of the pass is
    [hum.val1] modulo 256: a reading within 0..255 is passed on as it is,
    also above 100, and a reading outside 0..255 wraps around; with
    [ble_ready] set that byte is stored at offset 4 of the advertisement. *)
Theorem humidity_byte_wraps io :
  si7021_ready io = true -> si7021_fetch io = 0 ->
  let h := val1 (si7021_hum io) in
  hum_pct (loop_locals io) = h mod 256 /\
  (0 <= h <= 255 -> hum_pct (loop_locals io) = h) /\
  (~ 0 <= h <= 255 -> hum_pct (loop_locals io) <> h) /\
  (forall st, reachable st -> ble_ready st = true ->
              mfr_data (loop_iteration io st) !! 4%nat = Some (h mod 256)).
Proof.
  intros Hready Hfetch h.
  assert (Hlive : si7021_live io = true)
    by (unfold si7021_live; now rewrite Hready, Hfetch).
  assert (Hh : hum_pct (loop_locals io) = h mod 256)
    by (now rewrite loop_hum_pct, Hlive).
  rewrite Hh. repeat split.
  - intros Hin. apply Z.mod_small. lia.
  - intros Hout Heq. pose proof (Z.mod_pos_bound h 256). lia.
  - intros st Hreach Hble.
    rewrite (loop_iteration_ready io st (reachable_inv st Hreach) Hble).
    simpl. now rewrite Hh.
Qed.

Lemma humidity_byte_wraps_witness :
  val1 (si7021_hum io_temp_only) = 300 /\
  hum_pct (loop_locals io_temp_only) = 44 /\
  mfr_data (loop_iteration io_temp_only (bt_ready_cb 0 0 fw_init)) !! 4%nat
    = Some 44.
Proof.
  destruct (humidity_byte_wraps io_temp_only eq_refl eq_refl)
    as (Hh & _ & _ & Hput).
  split; [reflexivity | split; [exact Hh |]].
  exact (Hput (bt_ready_cb 0 0 fw_init) advertising_reachable eq_refl).
Defined.

(** A pass with all three devices live, advertising: 21.50 degrees,
    40 percent, 300 lux, 44 microtesla, flags 7. *)
Example loop_iteration_all_live :
  mfr_data (loop_iteration io_all_live (bt_ready_cb 0 0 fw_init)) =
    [ 0xFF; 0xFF; 0x66; 0x08; 0x28; 0x2C; 0x01; 0x2C; 0x00; 0x07 ].
Proof. reflexivity. Qed.

(** The same pass before advertising has started leaves the buffer alone. *)
Example loop_iteration_before_advertising :
  loop_iteration io_all_live fw_init = fw_init.
Proof. reflexivity. Qed.

End MainLoop.

(** ** The temperature conversion *)

Section Temperature.

(** [Qtrunc_zero] rounds toward zero: it is the integer next to [q] on the
    side of zero. *)
Lemma Qtrunc_zero_nonneg q :
  (0 <= q)%Q ->
  (inject_Z (Qtrunc_zero q) <= q)%Q /\ (q < inject_Z (Qtrunc_zero q + 1))%Q.
Proof.
  intros Hq. unfold Qtrunc_zero.
  assert (Hn : 0 <= Qnum q) by (unfold Qle in Hq; simpl in Hq; lia).
  destruct (Z.ltb_spec (Qnum q) 0); [lia |].
  split; [apply Qfloor_le | apply Qlt_floor].
Qed.

Lemma Qtrunc_zero_neg q :
  (q < 0)%Q ->
  (inject_Z (Qtrunc_zero q - 1) < q)%Q /\ (q <= inject_Z (Qtrunc_zero q))%Q.
Proof.
  intros Hq. unfold Qtrunc_zero.
  assert (Hn : Qnum q < 0) by (unfold Qlt in Hq; simpl in Hq; lia).
  destruct (Z.ltb_spec (Qnum q) 0); [| lia].
  split; [apply Qceiling_lt | apply Qle_ceiling].
Qed.

(** Hundredths of a degree, truncated: the quotient of the millionths by
    ten thousand, in C's rounding. *)
Lemma spec_centidegrees_quot v :
  spec_centidegrees v = Z.quot (val1 v * 1000000 + val2 v) 10000.
Proof.
  destruct v as [a b]. unfold spec_centidegrees, Qtrunc_zero, celsius.
  unfold Qceiling, Qfloor, Qopp, Qmult, Qplus, inject_Z.
  cbn [Qnum Qden val1 val2].
  change (Z.pos (1 * 1000000 * 1)) with 1000000. change (Z.pos 1) with 1.
  destruct (Z.ltb_spec ((a * 1000000 + b * 1) * 100) 0);
    Z.to_euclidean_division_equations; lia.
Qed.

Ltac no_wrap :=
  rewrite int32_id
    by (unfold is_int32; Z.to_euclidean_division_equations; lia).

Lemma temp_expr_exact v :
  same_sign v -> Z.abs (val2 v) < 1000000 ->
  is_int16 (Z.quot (val1 v * 1000000 + val2 v) 10000) ->
  temp_expr v = Z.quot (val1 v * 1000000 + val2 v) 10000.
Proof.
  destruct v as [a b]. unfold same_sign, is_int16, temp_expr.
  cbn [val1 val2]. intros Hs Hb Hfit.
  unfold add32, mul32, neg32, div32.
  destruct (Z.ltb_spec b 0).
  - rewrite (int32_id (- b)) by (unfold is_int32; lia).
    rewrite (int32_id (Z.quot (- b) 10000))
      by (unfold is_int32; Z.to_euclidean_division_equations; lia).
    rewrite (int32_id (- _))
      by (unfold is_int32; Z.to_euclidean_division_equations; lia).
    rewrite (int32_id (a * 100))
      by (unfold is_int32; Z.to_euclidean_division_equations; lia).
    no_wrap. Z.to_euclidean_division_equations; lia.
  - rewrite (int32_id (Z.quot b 10000))
      by (unfold is_int32; Z.to_euclidean_division_equations; lia).
    rewrite (int32_id (a * 100))
      by (unfold is_int32; Z.to_euclidean_division_equations; lia).
    no_wrap. Z.to_euclidean_division_equations; lia.
Qed.

(** C7.  For a [sensor_value] whose parts have the same sign and whose
    fraction is below one unit, the expression
    [val1 * 100 + (val2 < 0 ? -(-val2 / 10000) : val2 / 10000)] is the
    temperature [val1 + val2 * 10^-6] in hundredths of a degree truncated
    toward zero, whenever that value fits an int16; the cast to [int16_t]
    then keeps it. *)
Theorem temp_expr_truncates v :
  same_sign v -> Z.abs (val2 v) < 1000000 ->
  is_int16 (spec_centidegrees v) ->
  temp_expr v = spec_centidegrees v /\
  int16 (temp_expr v) = spec_centidegrees v.
Proof.
  intros Hs Hb Hfit. rewrite spec_centidegrees_quot in *.
  rewrite (temp_expr_exact v Hs Hb Hfit).
  split; [reflexivity | now apply int16_id].
Qed.

Lemma temp_expr_truncates_witness :
  spec_centidegrees (si7021_temp io_temp_only) = -325 /\
  temp_expr (si7021_temp io_temp_only) = -325 /\
  int16 (temp_expr (si7021_temp io_temp_only)) = -325.
Proof.
  split; [reflexivity |].
  refine (temp_expr_truncates (si7021_temp io_temp_only) _ _ _).
  - right. simpl. lia.
  - simpl. lia.
  - unfold is_int16. vm_compute. split; discriminate.
Defined.

End Temperature.

(** ** Release 1.0.0 against release 0.1.0 *)

Section Releases.

Lemma enc_related_init : enc_related fw_init V0_1_0.fw_init.
Proof.
  split; try reflexivity.
  - exists 0. reflexivity.
  - intros _. split; reflexivity.
Qed.

Lemma enc_related_bt_ready_cb err adv_rc s1 s0 :
  enc_related s1 s0 ->
  enc_related (bt_ready_cb err adv_rc s1) (V0_1_0.bt_ready_cb err adv_rc s0).
Proof.
  intros [Hr Hlen Hext Hidle]. unfold bt_ready_cb, V0_1_0.bt_ready_cb.
  destruct (negb (err =? 0)); [now split |].
  destruct (adv_rc =? 0); [| now split].
  split; simpl; auto. discriminate.
Qed.

(** The two encoders on related states: the same bytes at offsets 0 to 8,
    and the flags byte appended. *)
Lemma update_ble_extends t h l m f s1 s0 :
  enc_related s1 s0 ->
  mfr_data (update_ble t h l m f s1) =
    mfr_data (V0_1_0.update_ble t h l m s0)
    ++ [if ble_ready s1 then f else 0].
Proof.
  intros [Hr Hlen [f0 Hext] Hidle].
  unfold update_ble, V0_1_0.update_ble. rewrite <- Hr.
  destruct (ble_ready s1) eqn:Hready; simpl.
  - rewrite Hext. destruct (mfr_data s0) as [| ? d]; [discriminate Hlen |].
    do 8 (destruct d as [| ? d]; [discriminate Hlen |]).
    destruct d; [reflexivity | discriminate Hlen].
  - destruct (Hidle eq_refl) as [-> ->]. reflexivity.
Qed.

Lemma enc_related_update_ble t h l m f s1 s0 :
  enc_related s1 s0 ->
  enc_related (update_ble t h l m f s1) (V0_1_0.update_ble t h l m s0).
Proof.
  intros Hrel. pose proof (update_ble_extends t h l m f s1 s0 Hrel) as Hext.
  destruct Hrel as [Hr Hlen Hold Hidle].
  split.
  - rewrite update_ble_keeps_ready. unfold V0_1_0.update_ble.
    destruct (ble_ready s0) eqn:Hready; simpl; congruence.
  - unfold V0_1_0.update_ble. destruct (negb (ble_ready s0)); [assumption |].
    simpl. now rewrite !length_insert.
  - eexists. exact Hext.
  - rewrite update_ble_keeps_ready. intros Hready.
    unfold update_ble, V0_1_0.update_ble. rewrite <- Hr, Hready. simpl. auto.
Qed.

Lemma enc_related_fold evs : forall s1 s0,
  enc_related s1 s0 ->
  enc_related (fold_left enc_step_v1 evs s1) (fold_left enc_step_v0 evs s0).
Proof.
  induction evs as [| ev evs IH]; intros s1 s0 Hrel; simpl; [assumption |].
  apply IH. destruct ev; simpl;
    auto using enc_related_bt_ready_cb, enc_related_update_ble.
Qed.

(** C9.  After any common history of Bluetooth events and encoder calls,
    the 1.0.0 and the 0.1.0 encoder, called with the same temperature,
    humidity, illuminance and magnetic field, leave identical bytes at
    payload offsets 0 to 8; the 0.1.0 payload has nine bytes, the 1.0.0
    payload ten, and the 1.0.0 payload is the 0.1.0 payload with one byte
    appended at offset 9: the flags when the call wrote the buffer. *)
Theorem v1_payload_extends_v0 evs t h l m f :
  let s1 := enc_run_v1 evs in
  let s0 := enc_run_v0 evs in
  let d1 := mfr_data (update_ble t h l m f s1) in
  let d0 := mfr_data (V0_1_0.update_ble t h l m s0) in
  length d0 = 9%nat /\ length d1 = 10%nat /\
  (forall i, (i < 9)%nat -> d1 !! i = d0 !! i) /\
  ble_ready s1 = ble_ready s0 /\
  d1 = d0 ++ [if ble_ready s1 then f else 0].
Proof.
  intros s1 s0 d1 d0.
  assert (Hrel : enc_related s1 s0)
    by apply enc_related_fold, enc_related_init.
  pose proof (update_ble_extends t h l m f s1 s0 Hrel) as Hext.
  pose proof (rel_length _ _ (enc_related_update_ble t h l m f s1 s0 Hrel))
    as Hlen.
  fold d0 in Hext, Hlen. fold d1 in Hext.
  split; [exact Hlen |].
  split; [rewrite Hext, length_app, Hlen; reflexivity |].
  split; [| split; [apply (rel_ready _ _ Hrel) | exact Hext]].
  intros i Hi. rewrite Hext. apply lookup_app_l. lia.
Qed.

(** The two releases after advertising has started and one encoder call. *)
Example releases_side_by_side :
  mfr_data (enc_run_v0 [EncBtReady 0 0; EncUpdate 2314 52 100 511 7]) =
    [ 0xFF; 0xFF; 0x0A; 0x09; 0x34; 0x64; 0x00; 0xFF; 0x01 ] /\
  mfr_data (enc_run_v1 [EncBtReady 0 0; EncUpdate 2314 52 100 511 7]) =
    [ 0xFF; 0xFF; 0x0A; 0x09; 0x34; 0x64; 0x00; 0xFF; 0x01; 0x07 ].
Proof. split; reflexivity. Qed.

End Releases.

(** ** The Payload Codec *)

Section Codec.

Lemma spec_interpret_length bytes :
  spec_interpret bytes = None <-> length bytes <> 10%nat.
Proof.
  unfold spec_interpret.
  do 10 (destruct bytes as [| ? bytes];
         [split; [intros _; simpl; lia | reflexivity] |]).
  destruct bytes; simpl; split; intros H;
    first [ discriminate H | reflexivity | lia ].
Qed.

Lemma spec_interpret_tag bytes fields :
  spec_interpret bytes = Some fields ->
  leading_tag bytes = Some (w_tag fields).
Proof.
  unfold spec_interpret.
  do 10 (destruct bytes as [| ? bytes]; [discriminate |]).
  destruct bytes; [| discriminate].
  intros [= <-]. reflexivity.
Qed.

(** No decoder meets both failure clauses: an input of another length
    whose leading tag is foreign would have to fail in two ways at once. *)
Lemma failure_clauses_clash (d : list Z -> Reading + DecodeError) :
  ~ (fails_BadLength_on_other_lengths d /\
     fails_UnrecognizedSource_at_any_length d).
Proof.
  intros [Hlen Htag].
  specialize (Hlen [0x4C; 0x00; 0x02; 0x15]).
  specialize (Htag [0x4C; 0x00; 0x02; 0x15] 0x4C eq_refl).
  rewrite Hlen in Htag by (simpl; lia).
  assert (Hne : 0x4C <> expected_tag) by discriminate.
  specialize (Htag Hne). discriminate Htag.
Qed.

Lemma leading_tag_short bytes :
  leading_tag bytes = None -> length bytes <> 10%nat.
Proof.
  destruct bytes as [| b0 [| b1 bytes]]; simpl; intros H;
    first [ discriminate H | lia ].
Qed.

Lemma decode_codec_failures now : codec_failures (decode now).
Proof.
  split; unfold decode.
  - intros bytes Hlen _. apply spec_interpret_length in Hlen.
    now rewrite Hlen.
  - intros bytes Hlen Htag.
    destruct (spec_interpret bytes) as [fields |] eqn:Hi.
    + rewrite (spec_interpret_tag _ _ Hi) in Htag.
      destruct (Z.eqb_spec (w_tag fields) expected_tag) as [Heq | Hne];
        [| reflexivity].
      exfalso. apply Htag. now rewrite Heq.
    + apply spec_interpret_length in Hi. contradiction.
  - intros bytes [Hlen _]. left. apply spec_interpret_length in Hlen.
    now rewrite Hlen.
  - intros bytes Hlen Htag.
    destruct (spec_interpret bytes) as [fields |] eqn:Hi.
    + rewrite (spec_interpret_tag _ _ Hi) in Htag.
      injection Htag as ->. rewrite Z.eqb_refl. now eexists.
    + apply spec_interpret_length in Hi. contradiction.
Qed.

Lemma decode_tag_first_codec_failures now :
  codec_failures (decode_tag_first now).
Proof.
  split; unfold decode_tag_first.
  - intros bytes Hlen [Hnone | Htag].
    + now rewrite Hnone.
    + rewrite Htag, Z.eqb_refl. simpl.
      apply spec_interpret_length in Hlen. now rewrite Hlen.
  - intros bytes Hlen Htag.
    destruct (leading_tag bytes) as [tag |] eqn:Ht.
    + destruct (Z.eqb_spec tag expected_tag) as [-> | Hne];
        [contradiction | reflexivity].
    + apply leading_tag_short in Ht. contradiction.
  - intros bytes [Hlen (tag & Ht & Hne)]. right. rewrite Ht.
    destruct (Z.eqb_spec tag expected_tag); [contradiction | reflexivity].
  - intros bytes Hlen Htag. rewrite Htag, Z.eqb_refl. simpl.
    destruct (spec_interpret bytes) as [fields |] eqn:Hi; [now eexists |].
    apply spec_interpret_length in Hi. contradiction.
Qed.

(** The order of the two checks shows only where the clauses meet. *)
Lemma decode_orders_agree now bytes :
  ~ foreign_and_misfit bytes ->
  decode now bytes = decode_tag_first now bytes.
Proof.
  intros Hnot. unfold decode, decode_tag_first.
  destruct (spec_interpret bytes) as [fields |] eqn:Hi.
  - rewrite (spec_interpret_tag _ _ Hi).
    now destruct (w_tag fields =? expected_tag).
  - destruct (leading_tag bytes) as [tag |] eqn:Ht; [| reflexivity].
    destruct (Z.eqb_spec tag expected_tag) as [Heq | Hne]; [reflexivity |].
    exfalso. apply Hnot. split; [now apply spec_interpret_length |].
    now exists tag.
Qed.

(** C4, as amended.  Whichever of the two checks runs first, [decode]
    fails with [BadLength] on every input of another length than ten that
    has no foreign tag in front (the tag is 0xFFFF or the input too short
    to hold one), fails with [UnrecognizedSource] on every ten-byte payload
    whose leading tag differs from 0xFFFF, fails with one of the two
    errors on an input of another length with a foreign tag, and does not
    fail on a ten-byte payload with the tag 0xFFFF; the two orders give
    the same result on every input but those of another length with a
    foreign tag. *)
Theorem codec_failures_either_order now :
  codec_failures (decode now) /\
  codec_failures (decode_tag_first now) /\
  (forall bytes, ~ foreign_and_misfit bytes ->
                 decode now bytes = decode_tag_first now bytes).
Proof.
  split; [apply decode_codec_failures |].
  split; [apply decode_tag_first_codec_failures |].
  intros bytes. apply decode_orders_agree.
Qed.

Lemma codec_failures_either_order_witness :
  (decode 0 [0xFF; 0xFF; 0x0A] = inr BadLength /\
   decode_tag_first 0 [0xFF; 0xFF; 0x0A] = inr BadLength) /\
  (decode 0 [0x4C; 0x00; 0x02; 0x15; 0; 0; 0; 0; 0; 0] =
     inr UnrecognizedSource /\
   decode_tag_first 0 [0x4C; 0x00; 0x02; 0x15; 0; 0; 0; 0; 0; 0] =
     inr UnrecognizedSource) /\
  (exists r,
     decode 0 [0xFF; 0xFF; 0x0A; 0x09; 0x34; 0x64; 0x00; 0xFF; 0x01; 0x07] =
       inl r) /\
  decode 0 [0x07] = decode_tag_first 0 [0x07].
Proof.
  destruct (codec_failures_either_order 0) as (Hlen & Htag & Hsame).
  split; [split |]; [| | split; [split |]; [| | split]].
  - apply (fails_misfit _ Hlen); [simpl; lia | now right].
  - apply (fails_misfit _ Htag); [simpl; lia | now right].
  - apply (fails_foreign _ Hlen); [reflexivity | discriminate].
  - apply (fails_foreign _ Htag); [reflexivity | discriminate].
  - apply (decodes_well_formed _ Hlen); reflexivity.
  - apply Hsame. intros [_ (tag & Ht & _)]. discriminate Ht.
Defined.

(** C4 as stated fails on a four-byte advertisement of another vendor
    (company id 0x004C): its length is not ten and its leading tag is not
    0xFFFF, so the claim asks for [BadLength] and for [UnrecognizedSource]
    at once.  No decoder returns both; with the length checked first the
    tag clause fails there, with the tag matched first the length clause
    does. *)
Lemma failure_clauses_meet :
  foreign_and_misfit [0x4C; 0x00; 0x02; 0x15] /\
  (forall d : list Z -> Reading + DecodeError,
     ~ (fails_BadLength_on_other_lengths d /\
        fails_UnrecognizedSource_at_any_length d)) /\
  decode 0 [0x4C; 0x00; 0x02; 0x15] <> inr UnrecognizedSource /\
  decode_tag_first 0 [0x4C; 0x00; 0x02; 0x15] <> inr BadLength.
Proof.
  split; [| split; [| split]].
  - split; [simpl; lia |]. exists 0x4C. split; [reflexivity | discriminate].
  - exact failure_clauses_clash.
  - discriminate.
  - discriminate.
Qed.

(** The bridge reads back what the firmware, advertising, encodes. *)
Lemma decode_update_ble now st t h l m f :
  is_int16 t -> is_uint16 l -> is_int16 m ->
  reachable st -> ble_ready st = true ->
  decode now (mfr_data (update_ble t h l m f st)) =
    inl {| temperature_centidegrees := t; humidity_percent := h;
           illuminance_lux := l; magnetic_field_microtesla := m;
           reading_flags := f; received_at := now |}.
Proof.
  intros Ht Hl Hm Hreach Hready.
  destruct (reachable_inv st Hreach) as [Hlen Htag _ _].
  rewrite (update_ble_ready_layout t h l m f st Hl Hready Hlen Htag).
  unfold decode. now rewrite spec_interpret_layout.
Qed.

End Codec.

(** ** The Reading Bus *)

Module ReadingBusFacts.

Import ReadingBus.

Lemma published_app tr1 tr2 :
  published (tr1 ++ tr2) = published tr1 ++ published tr2.
Proof.
  induction tr1 as [| a tr1 IH]; [reflexivity |].
  destruct a; simpl; now rewrite ?IH.
Qed.

(** One step, seen from a subscriber [s] that it does not remove: [s] stays
    registered, and what [s] has been given plus what the publish in flight
    still owes it grows by exactly the Reading the step publishes. *)
Lemma step_delivered b a b' s :
  step b a = Some b' -> a <> Unsubscribe s ->
  is_Some (registry b !! s) ->
  is_Some (registry b' !! s) /\
  delivered b' s ++ owed b' s = delivered b s ++ owed b s ++ published [a].
Proof.
  intros Hstep Hne [c Hc]. unfold delivered, owed.
  destruct a as [s' | s' | r | s' | | s']; simpl in Hstep.
  - destruct (registry b !! s') eqn:Hs'; injection Hstep as <-; simpl.
    + rewrite Hc. split; [eauto |]. now rewrite !app_nil_r.
    + assert (s' <> s) by congruence.
      rewrite lookup_insert_ne, Hc by done.
      split; [eauto |]. now rewrite !app_nil_r.
  - injection Hstep as <-; simpl.
    assert (s' <> s) by congruence.
    rewrite lookup_delete_ne, Hc by done.
    split; [eauto |]. now rewrite !app_nil_r.
  - destruct (in_flight b) eqn:Hf; [discriminate |].
    injection Hstep as <-; simpl. rewrite Hc.
    split; [eauto |].
    rewrite decide_True by (apply elem_of_dom; eauto). reflexivity.
  - destruct (in_flight b) as [[r todo] |] eqn:Hf; [| discriminate].
    destruct (decide (s' ∈ todo)) as [Hin | Hnin]; [| discriminate].
    injection Hstep as <-; simpl.
    destruct (decide (s' = s)) as [-> | Hs].
    + rewrite lookup_alter_eq, Hc. simpl.
      split; [eauto |].
      destruct (decide (s ∈ todo ∖ {[s]})) as [Hx | _];
        [apply elem_of_difference in Hx as [_ Hx]; set_solver |].
      destruct (decide (s ∈ todo)) as [_ | Hx]; [| done].
      now rewrite !app_nil_r, app_assoc.
    + rewrite lookup_alter_ne, Hc by done.
      split; [eauto |].
      destruct (decide (s ∈ todo)) as [Hs1 | Hs1];
        destruct (decide (s ∈ todo ∖ {[s']})) as [Hs2 | Hs2];
        rewrite ?app_nil_r; try reflexivity; exfalso.
      * apply Hs2, elem_of_difference. split; [assumption |].
        intros Heq%elem_of_singleton. congruence.
      * apply Hs1. now apply elem_of_difference in Hs2 as [? _].
  - destruct (in_flight b) as [[r todo] |] eqn:Hf; [| discriminate].
    destruct (decide (todo = ∅)) as [-> | Hnin]; [| discriminate].
    injection Hstep as <-; simpl. rewrite Hc.
    split; [eauto |].
    destruct (decide (s ∈ (∅ : gset nat))) as [Hx | _]; [set_solver | done].
  - destruct (registry b !! s') as [c' |] eqn:Hs'; [| discriminate].
    destruct (pending c') as [| r q] eqn:Hp; [discriminate |].
    injection Hstep as <-; simpl.
    destruct (decide (s' = s)) as [-> | Hs].
    + rewrite lookup_insert_eq. simpl. rewrite Hc.
      split; [eauto |].
      assert (c' = c) as -> by congruence. rewrite Hp.
      rewrite !app_nil_r. f_equal. now rewrite <- app_assoc.
    + rewrite lookup_insert_ne, Hc by done.
      split; [eauto |]. now rewrite !app_nil_r.
Qed.

Lemma run_delivered tr : forall b b' s,
  run b tr = Some b' -> never_unsubscribes s tr ->
  is_Some (registry b !! s) ->
  is_Some (registry b' !! s) /\
  delivered b' s ++ owed b' s = delivered b s ++ owed b s ++ published tr.
Proof.
  induction tr as [| a tr IH]; intros b b' s Hrun Hnever Hreg.
  - injection Hrun as <-. split; [assumption |]. simpl. now rewrite app_nil_r.
  - simpl in Hrun. destruct (step b a) as [b1 |] eqn:Hstep; [| discriminate].
    apply Forall_cons in Hnever as [Hne Hnever].
    destruct (step_delivered b a b1 s Hstep Hne Hreg) as [Hreg1 Heq1].
    destruct (IH b1 b' s Hrun Hnever Hreg1) as [Hreg' Heq'].
    split; [assumption |].
    rewrite Heq', app_assoc, Heq1.
    change (a :: tr) with ([a] ++ tr). rewrite published_app.
    now rewrite <- !app_assoc.
Qed.

(** C8.  Take any interleaving of bus steps that starts and ends with no
    publish in flight, and any set of subscribers that are registered at
    its start and that it never unsubscribes.  Whatever the other
    subscribers do in between, each of them is still registered at the end
    and has been delivered exactly the Readings published in between, each
    once, in publish order, after what it had been delivered before; once
    its channel is drained, that is what its handler has received. *)
Theorem registered_subscribers_get_every_reading
  (b b' : bus) (tr : list action) (subs : gset nat) :
  run b tr = Some b' ->
  in_flight b = None -> in_flight b' = None ->
  subs ⊆ dom (registry b) ->
  (forall s, s ∈ subs -> never_unsubscribes s tr) ->
  forall s, s ∈ subs ->
    delivered b' s = delivered b s ++ published tr /\
    exists c, registry b' !! s = Some c /\
              (pending c = [] ->
               received c = delivered b s ++ published tr).
Proof.
  intros Hrun Hidle Hidle' Hsubs Hnever s Hs.
  assert (Hreg : is_Some (registry b !! s))
    by (apply elem_of_dom, Hsubs, Hs).
  destruct (run_delivered tr b b' s Hrun (Hnever s Hs) Hreg) as [[c Hc] Heq].
  unfold owed in Heq. rewrite Hidle, Hidle' in Heq.
  rewrite app_nil_r in Heq. simpl in Heq.
  split; [exact Heq |].
  exists c. split; [exact Hc |].
  intros Hdrained. rewrite <- Heq. unfold delivered.
  now rewrite Hc, Hdrained, app_nil_r.
Qed.

Lemma registered_subscribers_get_every_reading_witness :
  run two_subscribers busy_trace =
    Some (default two_subscribers (run two_subscribers busy_trace)) /\
  delivered (default two_subscribers (run two_subscribers busy_trace)) 1 =
    [reading_a; reading_b].
Proof.
  split; [vm_compute; reflexivity |].
  refine (proj1 (registered_subscribers_get_every_reading
                   two_subscribers
                   (default two_subscribers (run two_subscribers busy_trace))
                   busy_trace {[1%nat]} _ _ _ _ _ 1%nat _)).
  - vm_compute. reflexivity.
  - reflexivity.
  - vm_compute. reflexivity.
  - intros s Hs. apply elem_of_singleton in Hs as ->.
    apply elem_of_dom. vm_compute. eauto.
  - intros s Hs. apply elem_of_singleton in Hs as ->.
    unfold never_unsubscribes, busy_trace.
    repeat (apply Forall_cons; split; [discriminate |]). apply Forall_nil_2.
  - now apply elem_of_singleton.
Defined.

End ReadingBusFacts.

(** * Further properties of the firmware *)

(** ** [update_ble] as an operation on the buffer *)

Section EncoderMore.

(** X1.  Whatever the state, also outside those the firmware reaches,
    [update_ble] keeps the size of the buffer, never writes the company id
    at offsets 0 and 1, and leaves [ble_ready] as it is. *)
Theorem update_ble_frame t h l m f st :
  length (mfr_data (update_ble t h l m f st)) = length (mfr_data st) /\
  take 2 (mfr_data (update_ble t h l m f st)) = take 2 (mfr_data st) /\
  ble_ready (update_ble t h l m f st) = ble_ready st.
Proof.
  unfold update_ble. destruct (ble_ready st) eqn:Hr; simpl; [| by rewrite Hr].
  split; [by rewrite !length_insert |].
  split; [by rewrite !take_insert_ge by lia |].
  reflexivity.
Qed.

(** X2.  The last call wins: a call of [update_ble] overwrites all of what
    an earlier call stored, so two calls in a row leave the state of the
    second call alone; in particular a repeated call changes nothing. *)
Theorem update_ble_last_call_wins t h l m f t' h' l' m' f' st :
  update_ble t h l m f (update_ble t' h' l' m' f' st) =
  update_ble t h l m f st.
Proof.
  unfold update_ble. destruct st as [d r]. destruct r; simpl; [| reflexivity].
  f_equal.
  do 10 (destruct d as [| ? d]; [reflexivity |]). reflexivity.
Qed.

(** X3.  The encoding loses nothing: from a state the firmware reaches with
    [ble_ready] set, two calls of [update_ble] with arguments in the ranges
    of their parameter types (int16, uint8, uint16, int16, uint8) leave the
    same buffer exactly when they had the same five arguments; two
    different readings never share a payload. *)
Theorem update_ble_injective st t h l m f t' h' l' m' f' :
  is_int16 t -> is_uint8 h -> is_uint16 l -> is_int16 m -> is_uint8 f ->
  is_int16 t' -> is_uint8 h' -> is_uint16 l' -> is_int16 m' ->
  is_uint8 f' ->
  reachable st -> ble_ready st = true ->
  (mfr_data (update_ble t h l m f st) =
     mfr_data (update_ble t' h' l' m' f' st) <->
   t = t' /\ h = h' /\ l = l' /\ m = m' /\ f = f').
Proof.
  intros Ht Hh Hl Hm Hf Ht' Hh' Hl' Hm' Hf' Hreach Hready.
  destruct (reachable_inv st Hreach) as [Hlen Htag _ _].
  split.
  - intros Heq.
    rewrite !update_ble_ready_layout in Heq by assumption.
    apply (f_equal spec_interpret) in Heq.
    rewrite !spec_interpret_layout in Heq by assumption.
    injection Heq as -> -> -> -> ->. auto.
  - intros (-> & -> & -> & -> & ->). reflexivity.
Qed.

Lemma update_ble_injective_witness :
  reachable (bt_ready_cb 0 0 fw_init) /\
  ble_ready (bt_ready_cb 0 0 fw_init) = true /\
  mfr_data (update_ble (-1) 44 300 (-44) 7 (bt_ready_cb 0 0 fw_init)) <>
    mfr_data (update_ble 255 44 300 (-44) 7 (bt_ready_cb 0 0 fw_init)) /\
  mfr_data (update_ble (-1) 44 300 (-44) 7 (bt_ready_cb 0 0 fw_init)) <>
    mfr_data (update_ble (-1) 45 300 (-44) 3 (bt_ready_cb 0 0 fw_init)).
Proof.
  split; [exact advertising_reachable | split; [reflexivity |]].
  assert (Ht : is_int16 (-1)) by (unfold is_int16; lia).
  assert (Ht' : is_int16 255) by (unfold is_int16; lia).
  assert (Hh : is_uint8 44) by (unfold is_uint8; lia).
  assert (Hh' : is_uint8 45) by (unfold is_uint8; lia).
  assert (Hl : is_uint16 300) by (unfold is_uint16; lia).
  assert (Hm : is_int16 (-44)) by (unfold is_int16; lia).
  assert (Hf : is_uint8 7) by (unfold is_uint8; lia).
  assert (Hf' : is_uint8 3) by (unfold is_uint8; lia).
  split; intros Heq.
  - destruct (proj1 (update_ble_injective (bt_ready_cb 0 0 fw_init)
                       (-1) 44 300 (-44) 7 255 44 300 (-44) 7
                       Ht Hh Hl Hm Hf Ht' Hh Hl Hm Hf
                       advertising_reachable eq_refl) Heq) as [E _].
    discriminate E.
  - destruct (proj1 (update_ble_injective (bt_ready_cb 0 0 fw_init)
                       (-1) 44 300 (-44) 7 (-1) 45 300 (-44) 3
                       Ht Hh Hl Hm Hf Ht Hh' Hl Hm Hf'
                       advertising_reachable eq_refl) Heq) as (_ & E & _).
    discriminate E.
Defined.

End EncoderMore.

(** ** Runs of the firmware *)

Section Runs.

Lemma bt_ready_cb_ready err adv_rc st :
  ble_ready (bt_ready_cb err adv_rc st) =
    ble_ready st || ((err =? 0) && (adv_rc =? 0)).
Proof.
  unfold bt_ready_cb.
  destruct (err =? 0), (adv_rc =? 0); simpl;
    destruct (ble_ready st); reflexivity.
Qed.

Lemma fw_step_ready st ev :
  ble_ready (fw_step st ev) = ble_ready st || bt_up ev.
Proof.
  destruct ev as [err adv_rc | io]; simpl.
  - apply bt_ready_cb_ready.
  - unfold loop_iteration. rewrite update_ble_keeps_ready.
    now rewrite orb_false_r.
Qed.

Lemma fold_ready evs : forall st,
  ble_ready (fold_left fw_step evs st) = ble_ready st || existsb bt_up evs.
Proof.
  induction evs as [| ev evs IH]; intros st; simpl.
  - now rewrite orb_false_r.
  - rewrite IH, fw_step_ready. now rewrite orb_assoc.
Qed.

(** X4.  [ble_ready] is a latch: after any history it is set exactly when
    some call of [bt_ready_cb] came with no error and [bt_le_adv_start]
    returned 0, and once set nothing that follows clears it. *)
Theorem ble_ready_latches evs1 evs2 :
  ble_ready (fw_run evs1) = existsb bt_up evs1 /\
  (ble_ready (fw_run evs1) = true ->
   ble_ready (fw_run (evs1 ++ evs2)) = true).
Proof.
  unfold fw_run. rewrite fold_left_app, !fold_ready. simpl.
  split; [reflexivity |]. intros ->. reflexivity.
Qed.

Lemma ble_ready_latches_witness :
  ble_ready (fw_run [EvBtReady (-5) 0; EvBtReady 0 0]) = true /\
  ble_ready (fw_run ([EvBtReady (-5) 0; EvBtReady 0 0]
                     ++ [EvBtReady (-5) 0; EvLoop io_hot; EvBtReady 0 (-12)]))
    = true.
Proof.
  split; [reflexivity |].
  exact (proj2 (ble_ready_latches [EvBtReady (-5) 0; EvBtReady 0 0]
                  [EvBtReady (-5) 0; EvLoop io_hot; EvBtReady 0 (-12)])
               eq_refl).
Defined.

Lemma idle_fold evs : forall st,
  existsb bt_up evs = false -> ble_ready st = false ->
  fold_left fw_step evs st = st.
Proof.
  induction evs as [| ev evs IH]; intros st Hnone Hst; [reflexivity |].
  simpl in *. apply orb_false_iff in Hnone as [Hev Hnone].
  assert (Hsame : fw_step st ev = st).
  { destruct ev as [err adv_rc | io]; simpl in *.
    - unfold bt_ready_cb. destruct (err =? 0); [| reflexivity].
      simpl in Hev. now rewrite Hev.
    - now apply loop_iteration_idle. }
  rewrite Hsame. now apply IH.
Qed.

(** X5.  While Bluetooth has not come up the firmware is silent: a history
    in which every [bt_ready_cb] reports an error or a failed
    [bt_le_adv_start] leaves the globals as initialised, however many
    passes of the loop it holds; the payload advertising then starts with
    is the all-zero initialiser with flags 0. *)
Theorem silent_until_advertising evs :
  existsb bt_up evs = false ->
  fw_run evs = fw_init /\
  forall err adv_rc,
    mfr_data (fw_run (evs ++ [EvBtReady err adv_rc])) =
      [ 0xFF; 0xFF; 0; 0; 0; 0; 0; 0; 0; 0 ].
Proof.
  intros Hnone.
  assert (Hrun : fw_run evs = fw_init) by (now apply idle_fold).
  split; [exact Hrun |].
  intros err adv_rc. unfold fw_run in *. rewrite fold_left_app, Hrun.
  simpl. unfold bt_ready_cb.
  destruct (negb (err =? 0)); [reflexivity |].
  destruct (adv_rc =? 0); reflexivity.
Qed.

Lemma silent_until_advertising_witness :
  existsb bt_up history_without_advertising = false /\
  fw_run history_without_advertising = fw_init.
Proof.
  split; [reflexivity |].
  exact (proj1 (silent_until_advertising history_without_advertising
                  eq_refl)).
Defined.

(** X6.  The payload has no memory: from any two states the firmware
    reaches with [ble_ready] set, the same pass of the loop leaves the same
    globals, whatever the earlier passes stored. *)
Theorem pass_overwrites_payload io st1 st2 :
  reachable st1 -> reachable st2 ->
  ble_ready st1 = true -> ble_ready st2 = true ->
  loop_iteration io st1 = loop_iteration io st2.
Proof.
  intros H1 H2 Hr1 Hr2.
  pose proof (loop_iteration_ready io st1 (reachable_inv _ H1) Hr1) as E1.
  pose proof (loop_iteration_ready io st2 (reachable_inv _ H2) Hr2) as E2.
  assert (R1 : ble_ready (loop_iteration io st1) = true)
    by (unfold loop_iteration; now rewrite update_ble_keeps_ready).
  assert (R2 : ble_ready (loop_iteration io st2) = true)
    by (unfold loop_iteration; now rewrite update_ble_keeps_ready).
  destruct (loop_iteration io st1), (loop_iteration io st2).
  simpl in *. congruence.
Qed.

Lemma pass_overwrites_payload_witness :
  reachable (bt_ready_cb 0 0 fw_init) /\
  reachable (loop_iteration io_all_live (bt_ready_cb 0 0 fw_init)) /\
  loop_iteration io_none_live (bt_ready_cb 0 0 fw_init) =
    loop_iteration io_none_live
      (loop_iteration io_all_live (bt_ready_cb 0 0 fw_init)).
Proof.
  assert (H2 : reachable
                 (loop_iteration io_all_live (bt_ready_cb 0 0 fw_init)))
    by (exists [EvBtReady 0 0; EvLoop io_all_live]; reflexivity).
  split; [exact advertising_reachable | split; [exact H2 |]].
  exact (pass_overwrites_payload io_none_live _ _
           advertising_reachable H2 eq_refl eq_refl).
Defined.

Lemma fold_payload_shape evs : forall st,
  fw_inv st ->
  (mfr_data st = mfr_data_init \/
   exists io, mfr_data st =
     spec_wire_layout (temp_cdeg (loop_locals io)) (hum_pct (loop_locals io))
       (lux (loop_locals io)) (mag_ut (loop_locals io))
       (flags (loop_locals io))) ->
  let st' := fold_left fw_step evs st in
  mfr_data st' = mfr_data_init \/
  exists io, mfr_data st' =
    spec_wire_layout (temp_cdeg (loop_locals io)) (hum_pct (loop_locals io))
      (lux (loop_locals io)) (mag_ut (loop_locals io))
      (flags (loop_locals io)).
Proof.
  induction evs as [| ev evs IH]; intros st Hinv Hshape; [exact Hshape |].
  simpl. apply IH; [now apply fw_inv_step |].
  destruct ev as [err adv_rc | io]; simpl.
  - unfold bt_ready_cb.
    destruct (negb (err =? 0)); [exact Hshape |].
    destruct (adv_rc =? 0); exact Hshape.
  - destruct (ble_ready st) eqn:Hr.
    + right. exists io. now apply loop_iteration_ready.
    + now rewrite loop_iteration_idle.
Qed.

(** X7.  In every state the firmware reaches, the buffer is a well-formed
    payload: ten entries, the company id 0xFF 0xFF in front, every entry a
    byte, and a flags byte between 0 and 7, so that no reserved bit is ever
    on the air. *)
Theorem advertisement_always_well_formed st :
  reachable st ->
  length (mfr_data st) = 10%nat /\
  take 2 (mfr_data st) = [0xFF; 0xFF] /\
  Forall is_uint8 (mfr_data st) /\
  exists f, mfr_data st !! 9%nat = Some f /\ 0 <= f <= 7.
Proof.
  intros [evs ->].
  pose proof (fw_inv_fold evs fw_init fw_inv_init) as [Hlen Htag _ _].
  split; [exact Hlen | split; [exact Htag |]].
  destruct (fold_payload_shape evs fw_init fw_inv_init (or_introl eq_refl))
    as [Hinit | [io Hio]]; unfold fw_run.
  - rewrite Hinit. split.
    + repeat (apply Forall_cons; split; [unfold is_uint8; lia |]).
      apply Forall_nil_2.
    + exists 0. split; [reflexivity | lia].
  - rewrite Hio. destruct (loop_locals_typed io) as (_ & Hh & Hl & _ & Hf).
    split; [now apply spec_wire_layout_bytes |].
    exists (flags (loop_locals io)). split; [reflexivity |].
    rewrite loop_flags.
    destruct (si7021_live io), (veml6035_live io), (si7210_live io); lia.
Qed.

Lemma advertisement_always_well_formed_witness :
  reachable (loop_iteration io_hot (bt_ready_cb 0 0 fw_init)) /\
  Forall is_uint8 (mfr_data (loop_iteration io_hot (bt_ready_cb 0 0 fw_init)))
  /\ mfr_data (loop_iteration io_hot (bt_ready_cb 0 0 fw_init)) !! 9%nat
     = Some 3.
Proof.
  assert (H : reachable (loop_iteration io_hot (bt_ready_cb 0 0 fw_init)))
    by (exists [EvBtReady 0 0; EvLoop io_hot]; reflexivity).
  split; [exact H | split; [| reflexivity]].
  exact (proj1 (proj2 (proj2 (advertisement_always_well_formed _ H)))).
Defined.

End Runs.

(** ** What a pass reads, and the conversions *)

Section LoopMore.

(** X8.  A pass reads a [sensor_value] only after a successful fetch, and
    of the humidity and the illuminance only the integer part: two driver
    reports that agree on which fetches succeed and on those values give
    the same locals, whatever is in the structs of the devices that were
    not ready or whose fetch failed. *)
Theorem failed_fetch_values_unread io1 io2 :
  agree_on_live io1 io2 -> loop_locals io1 = loop_locals io2.
Proof.
  intros [H1 H2 H3 Ht Hl Hm].
  assert (E : forall a b : locals,
             temp_cdeg a = temp_cdeg b -> hum_pct a = hum_pct b ->
             lux a = lux b -> mag_ut a = mag_ut b -> flags a = flags b ->
             a = b)
    by (intros [] []; simpl; congruence).
  apply E; rewrite ?loop_temp_cdeg, ?loop_hum_pct, ?loop_lux, ?loop_mag_ut,
             ?loop_flags, <- ?H1, <- ?H2, <- ?H3.
  - destruct (si7021_live io1); [| reflexivity].
    destruct (Ht eq_refl) as [-> _]. reflexivity.
  - destruct (si7021_live io1); [| reflexivity].
    destruct (Ht eq_refl) as [_ ->]. reflexivity.
  - destruct (veml6035_live io1); [| reflexivity].
    now rewrite (Hl eq_refl).
  - destruct (si7210_live io1); [| reflexivity].
    now rewrite (Hm eq_refl).
  - reflexivity.
Qed.

Lemma failed_fetch_values_unread_witness :
  agree_on_live io_none_live io_none_live' /\
  loop_locals io_none_live = loop_locals io_none_live' /\
  loop_locals io_none_live =
    {| temp_cdeg := 0; hum_pct := 0; lux := 0; mag_ut := 0; flags := 0 |}.
Proof.
  assert (H : agree_on_live io_none_live io_none_live')
    by (split; first [reflexivity | discriminate]).
  split; [exact H | split; [| reflexivity]].
  exact (failed_fetch_values_unread io_none_live io_none_live' H).
Defined.

Lemma spec_microtesla_quot v :
  spec_microtesla v = Z.quot (val1 v * 1000000 + val2 v) 10000.
Proof.
  destruct v as [a b]. unfold spec_microtesla, Qtrunc_zero, gauss.
  unfold Qceiling, Qfloor, Qopp, Qmult, Qplus, inject_Z.
  cbn [Qnum Qden val1 val2].
  change (Z.pos (1 * 1000000 * 1)) with 1000000. change (Z.pos 1) with 1.
  destruct (Z.ltb_spec ((a * 1000000 + b * 1) * 100) 0);
    Z.to_euclidean_division_equations; lia.
Qed.

(** X9.  For a field strength in Gauss whose parts have the same sign and
    whose fraction is below one unit, [mag.val1 * 100 + mag.val2 / 10000]
    is the field in microtesla truncated toward zero, whenever that value
    fits an int16; the cast to [int16_t] then keeps it. *)
Theorem mag_expr_truncates v :
  same_sign v -> Z.abs (val2 v) < 1000000 ->
  is_int16 (spec_microtesla v) ->
  mag_expr v = spec_microtesla v /\ int16 (mag_expr v) = spec_microtesla v.
Proof.
  intros Hs Hb Hfit. rewrite spec_microtesla_quot in *.
  assert (E : mag_expr v = Z.quot (val1 v * 1000000 + val2 v) 10000).
  { destruct v as [a b]. unfold same_sign, is_int16, mag_expr in *.
    cbn [val1 val2] in *. unfold add32, mul32, div32.
    rewrite (int32_id (Z.quot b 10000))
      by (unfold is_int32; Z.to_euclidean_division_equations; lia).
    rewrite (int32_id (a * 100))
      by (unfold is_int32; Z.to_euclidean_division_equations; lia).
    rewrite int32_id
      by (unfold is_int32; Z.to_euclidean_division_equations; lia).
    Z.to_euclidean_division_equations; lia. }
  rewrite E. split; [reflexivity | now apply int16_id].
Qed.

Lemma mag_expr_truncates_witness :
  spec_microtesla (si7210_mag io_all_live) = 44 /\
  mag_expr (si7210_mag io_all_live) = 44 /\
  int16 (mag_expr (si7210_mag io_all_live)) = 44.
Proof.
  split; [reflexivity |].
  refine (mag_expr_truncates (si7210_mag io_all_live) _ _ _).
  - left. simpl. lia.
  - simpl. lia.
  - unfold is_int16. vm_compute. split; discriminate.
Defined.

(** X10.  The sign test in the temperature expression changes nothing:
    for every [val2] above the least [int], the expression
    [val1 * 100 + (val2 < 0 ? -(-val2 / 10000) : val2 / 10000)] and the
    plain [val1 * 100 + val2 / 10000] of the magnetic field have the same
    value. *)
Theorem temp_ternary_redundant v :
  is_int32 (val2 v) -> val2 v <> -2147483648 ->
  temp_expr v = mag_expr v.
Proof.
  destruct v as [a b]. unfold temp_expr, mag_expr, is_int32. cbn [val1 val2].
  intros Hb Hmin. destruct (Z.ltb_spec b 0); [| reflexivity].
  f_equal. unfold neg32, div32.
  rewrite (int32_id (- b)) by (unfold is_int32; lia).
  rewrite (int32_id (Z.quot (- b) 10000))
    by (unfold is_int32; Z.to_euclidean_division_equations; lia).
  f_equal. Z.to_euclidean_division_equations; lia.
Qed.

Lemma temp_ternary_redundant_witness :
  temp_expr (si7021_temp io_temp_only) = -325 /\
  temp_expr (si7021_temp io_temp_only) = mag_expr (si7021_temp io_temp_only).
Proof.
  split; [reflexivity |].
  refine (temp_ternary_redundant (si7021_temp io_temp_only) _ _).
  - unfold is_int32. simpl. lia.
  - discriminate.
Defined.

Lemma int16_wrap_neq z : ~ is_int16 z -> int16 z <> z.
Proof.
  intros Hout Heq. apply Hout. rewrite <- Heq. apply int16_range.
Qed.

Lemma spec_centidegrees_as_quot v :
  spec_centidegrees v = Z.quot (val1 v * 1000000 + val2 v) 10000.
Proof.
  destruct v as [a b]. unfold spec_centidegrees, Qtrunc_zero, celsius.
  unfold Qceiling, Qfloor, Qopp, Qmult, Qplus, inject_Z.
  cbn [Qnum Qden val1 val2].
  change (Z.pos (1 * 1000000 * 1)) with 1000000. change (Z.pos 1) with 1.
  destruct (Z.ltb_spec ((a * 1000000 + b * 1) * 100) 0);
    Z.to_euclidean_division_equations; lia.
Qed.

Lemma temp_expr_no_overflow v :
  same_sign v -> Z.abs (val2 v) < 1000000 ->
  Z.abs (val1 v) <= 21474835 ->
  temp_expr v = Z.quot (val1 v * 1000000 + val2 v) 10000.
Proof.
  destruct v as [a b]. unfold same_sign, temp_expr.
  cbn [val1 val2]. intros Hs Hb Ha.
  unfold add32, mul32, neg32, div32.
  destruct (Z.ltb_spec b 0).
  - rewrite (int32_id (- b)) by (unfold is_int32; lia).
    rewrite (int32_id (Z.quot (- b) 10000))
      by (unfold is_int32; Z.to_euclidean_division_equations; lia).
    rewrite (int32_id (- _))
      by (unfold is_int32; Z.to_euclidean_division_equations; lia).
    rewrite (int32_id (a * 100)) by (unfold is_int32; lia).
    rewrite int32_id
      by (unfold is_int32; Z.to_euclidean_division_equations; lia).
    Z.to_euclidean_division_equations; lia.
  - rewrite (int32_id (Z.quot b 10000))
      by (unfold is_int32; Z.to_euclidean_division_equations; lia).
    rewrite (int32_id (a * 100)) by (unfold is_int32; lia).
    rewrite int32_id
      by (unfold is_int32; Z.to_euclidean_division_equations; lia).
    Z.to_euclidean_division_equations; lia.
Qed.

(** X11.  Between -326 and 326 degrees the temperature of a pass is exact:
    when the Si7021 fetch succeeds on a well-signed value with an integer
    part in that range, [temp_cdeg] is the temperature in hundredths of a
    degree truncated toward zero, and nothing wraps. *)
Theorem temperature_exact_within_326_degrees io :
  si7021_ready io = true -> si7021_fetch io = 0 ->
  same_sign (si7021_temp io) -> Z.abs (val2 (si7021_temp io)) < 1000000 ->
  -326 <= val1 (si7021_temp io) <= 326 ->
  temp_cdeg (loop_locals io) = spec_centidegrees (si7021_temp io) /\
  -32699 <= temp_cdeg (loop_locals io) <= 32699.
Proof.
  intros Hready Hfetch Hs Hb Ha.
  assert (Hlive : si7021_live io = true)
    by (unfold si7021_live; now rewrite Hready, Hfetch).
  rewrite loop_temp_cdeg, Hlive, spec_centidegrees_as_quot.
  rewrite temp_expr_no_overflow by (auto; lia).
  assert (Hfit : -32699 <= Z.quot (val1 (si7021_temp io) * 1000000
                                    + val2 (si7021_temp io)) 10000 <= 32699)
    by (destruct Hs; Z.to_euclidean_division_equations; lia).
  rewrite int16_id by (unfold is_int16; lia). auto.
Qed.

Lemma temperature_exact_within_326_degrees_witness :
  val1 (si7021_temp io_temp_only) = -3 /\
  temp_cdeg (loop_locals io_temp_only) = -325 /\
  temp_cdeg (loop_locals io_temp_only) =
    spec_centidegrees (si7021_temp io_temp_only).
Proof.
  split; [reflexivity | split; [reflexivity |]].
  refine (proj1 (temperature_exact_within_326_degrees io_temp_only
                   eq_refl eq_refl _ _ _)).
  - right. simpl. lia.
  - simpl. lia.
  - simpl. lia.
Defined.

(** X12.  Beyond the int16 range the temperature wraps: as long as the
    [int] arithmetic does not overflow, [temp_cdeg] is the truncated
    temperature in hundredths reduced to 16 bits, and differs from it as
    soon as it does not fit. *)
Theorem temperature_wraps_beyond_int16 io :
  si7021_ready io = true -> si7021_fetch io = 0 ->
  same_sign (si7021_temp io) -> Z.abs (val2 (si7021_temp io)) < 1000000 ->
  Z.abs (val1 (si7021_temp io)) <= 21474835 ->
  temp_cdeg (loop_locals io) = int16 (spec_centidegrees (si7021_temp io)) /\
  (~ is_int16 (spec_centidegrees (si7021_temp io)) ->
   temp_cdeg (loop_locals io) <> spec_centidegrees (si7021_temp io)).
Proof.
  intros Hready Hfetch Hs Hb Ha.
  assert (Hlive : si7021_live io = true)
    by (unfold si7021_live; now rewrite Hready, Hfetch).
  rewrite loop_temp_cdeg, Hlive, spec_centidegrees_as_quot.
  rewrite temp_expr_no_overflow by auto.
  split; [reflexivity | apply int16_wrap_neq].
Qed.

Lemma temperature_wraps_beyond_int16_witness :
  spec_centidegrees (si7021_temp io_hot) = 32800 /\
  temp_cdeg (loop_locals io_hot) = -32736 /\
  temp_cdeg (loop_locals io_hot) <> spec_centidegrees (si7021_temp io_hot).
Proof.
  split; [reflexivity | split; [reflexivity |]].
  refine (proj2 (temperature_wraps_beyond_int16 io_hot
                   eq_refl eq_refl _ _ _) _).
  - left. simpl. lia.
  - simpl. lia.
  - simpl. lia.
  - unfold is_int16. vm_compute. intros [_ H]. apply H. reflexivity.
Defined.

(** X13.  When the VEML6035 fetch succeeds, the illuminance of the pass is
    [light.val1] modulo 65536: a reading within 0..65535 is passed on as it
    is, a negative or larger one wraps around, and the fraction is
    dropped. *)
Theorem lux_wraps io :
  veml6035_ready io = true -> veml6035_fetch io = 0 ->
  let v := val1 (veml6035_light io) in
  lux (loop_locals io) = v mod 65536 /\
  (0 <= v <= 65535 -> lux (loop_locals io) = v) /\
  (~ 0 <= v <= 65535 -> lux (loop_locals io) <> v).
Proof.
  intros Hready Hfetch v.
  assert (Hlive : veml6035_live io = true)
    by (unfold veml6035_live; now rewrite Hready, Hfetch).
  assert (Hl : lux (loop_locals io) = v mod 65536)
    by (now rewrite loop_lux, Hlive).
  rewrite Hl. split; [reflexivity | split].
  - intros Hin. apply Z.mod_small. lia.
  - intros Hout Heq. pose proof (Z.mod_pos_bound v 65536). lia.
Qed.

Lemma lux_wraps_witness :
  val1 (veml6035_light io_hot) = 70000 /\
  lux (loop_locals io_hot) = 4464 /\
  lux (loop_locals io_hot) <> 70000.
Proof.
  destruct (lux_wraps io_hot eq_refl eq_refl) as (Hl & _ & Hout).
  split; [reflexivity | split; [exact Hl |]].
  apply Hout. simpl. lia.
Defined.

End LoopMore.

(** ** The debug line *)

Section DebugLine.

(** X14.  For a temperature of zero or more, or of -1.00 degree or less,
    the two integers printed as [%d.%02d] carry the temperature: the
    fraction is between 0 and 99, the integer part has the sign of the
    temperature, and integer part and fraction add up to [temp_cdeg]. *)
Theorem printk_temperature_faithful l :
  is_int16 (temp_cdeg l) ->
  0 <= temp_cdeg l \/ temp_cdeg l <= -100 ->
  exists ip fp rest,
    printk_args l = ip :: fp :: rest /\
    0 <= fp <= 99 /\
    (0 <= temp_cdeg l -> 0 <= ip /\ temp_cdeg l = ip * 100 + fp) /\
    (temp_cdeg l <= -100 -> ip < 0 /\ temp_cdeg l = ip * 100 - fp).
Proof.
  intros Ht Hrange. unfold printk_args, div32, abs32, rem32.
  unfold is_int16 in Ht.
  rewrite (int32_id (Z.quot _ _))
    by (unfold is_int32; Z.to_euclidean_division_equations; lia).
  rewrite (int32_id (Z.rem _ _))
    by (unfold is_int32; Z.to_euclidean_division_equations; lia).
  rewrite (int32_id (Z.abs _))
    by (unfold is_int32; Z.to_euclidean_division_equations; lia).
  do 3 eexists. split; [reflexivity |].
  repeat split; Z.to_euclidean_division_equations; lia.
Qed.

Lemma printk_temperature_faithful_witness :
  temp_cdeg (loop_locals io_temp_only) = -325 /\
  printk_args (loop_locals io_temp_only) = [-3; 25; 44; 0; 0; 1] /\
  exists ip fp rest,
    printk_args (loop_locals io_temp_only) = ip :: fp :: rest /\
    0 <= fp <= 99 /\
    (0 <= temp_cdeg (loop_locals io_temp_only) ->
     0 <= ip /\ temp_cdeg (loop_locals io_temp_only) = ip * 100 + fp) /\
    (temp_cdeg (loop_locals io_temp_only) <= -100 ->
     ip < 0 /\ temp_cdeg (loop_locals io_temp_only) = ip * 100 - fp).
Proof.
  split; [reflexivity | split; [reflexivity |]].
  refine (printk_temperature_faithful (loop_locals io_temp_only) _ _).
  - unfold is_int16. vm_compute. split; discriminate.
  - right. vm_compute. discriminate.
Defined.

(** X15.  Between -0.99 and -0.01 degrees the debug line loses the sign:
    the integer part printed is 0 and the fraction is the absolute value,
    so the line is the one printed for the same temperature above zero. *)
Theorem printk_loses_sign_below_one_degree l :
  -99 <= temp_cdeg l <= -1 ->
  printk_args l = printk_args (with_temp_cdeg (- temp_cdeg l) l) /\
  exists rest, printk_args l = 0 :: (- temp_cdeg l) :: rest.
Proof.
  intros Ht. unfold printk_args, with_temp_cdeg, div32, abs32, rem32.
  cbn [temp_cdeg hum_pct lux mag_ut flags].
  rewrite !(int32_id (Z.quot _ _))
    by (unfold is_int32; Z.to_euclidean_division_equations; lia).
  rewrite !(int32_id (Z.rem _ _))
    by (unfold is_int32; Z.to_euclidean_division_equations; lia).
  rewrite !(int32_id (Z.abs _))
    by (unfold is_int32; Z.to_euclidean_division_equations; lia).
  assert (E1 : Z.quot (temp_cdeg l) 100 = 0)
    by (Z.to_euclidean_division_equations; lia).
  assert (E2 : Z.quot (- temp_cdeg l) 100 = 0)
    by (Z.to_euclidean_division_equations; lia).
  assert (E3 : Z.abs (Z.rem (temp_cdeg l) 100) = - temp_cdeg l)
    by (Z.to_euclidean_division_equations; lia).
  assert (E4 : Z.abs (Z.rem (- temp_cdeg l) 100) = - temp_cdeg l)
    by (Z.to_euclidean_division_equations; lia).
  rewrite E1, E2, E3, E4. split; [reflexivity | eexists; reflexivity].
Qed.

Lemma printk_loses_sign_below_one_degree_witness :
  temp_cdeg (loop_locals io_just_below_zero) = -50 /\
  printk_args (loop_locals io_just_below_zero) = [0; 50; 80; 12; 44; 7] /\
  printk_args (loop_locals io_just_below_zero) =
    printk_args (with_temp_cdeg 50 (loop_locals io_just_below_zero)).
Proof.
  split; [reflexivity | split; [reflexivity |]].
  refine (proj1 (printk_loses_sign_below_one_degree
                   (loop_locals io_just_below_zero) _)).
  vm_compute. split; discriminate.
Defined.

End DebugLine.

(** ** The main loops of the two releases *)

Section ReleasesMore.

Lemma v0_loop_locals io : V0_1_0.loop_locals io = loop_locals io.
Proof.
  unfold V0_1_0.loop_locals, loop_locals.
  destruct (si7021_ready io && (si7021_fetch io =? 0));
    destruct (veml6035_ready io && (veml6035_fetch io =? 0));
    destruct (si7210_ready io && (si7210_fetch io =? 0)); reflexivity.
Qed.

(** X16.  From the same driver reports the main loop of 0.1.0 and that of
    1.0.0 compute the same five locals, the flags included, and print the
    same debug line: 0.1.0 already builds the flags, as an [int], and only
    prints them. *)
Theorem releases_compute_same_locals io :
  V0_1_0.loop_locals io = loop_locals io /\
  printk_args (V0_1_0.loop_locals io) = printk_args (loop_locals io).
Proof. now rewrite v0_loop_locals. Qed.

Lemma enc_related_fw_step s1 s0 ev :
  enc_related s1 s0 -> enc_related (fw_step s1 ev) (V0_1_0.fw_step s0 ev).
Proof.
  intros Hrel. destruct ev as [err adv_rc | io]; simpl.
  - now apply enc_related_bt_ready_cb.
  - unfold loop_iteration, V0_1_0.loop_iteration.
    rewrite (v0_loop_locals io).
    now apply enc_related_update_ble.
Qed.

Lemma enc_related_fw_fold evs : forall s1 s0,
  enc_related s1 s0 ->
  enc_related (fold_left fw_step evs s1) (fold_left V0_1_0.fw_step evs s0).
Proof.
  induction evs as [| ev evs IH]; intros s1 s0 Hrel; simpl; [assumption |].
  apply IH. now apply enc_related_fw_step.
Qed.

(** X17.  The two firmwares run in step: after any common history of
    Bluetooth events and driver reports they agree on [ble_ready], and
    after one more pass the payload of 1.0.0 is the nine-byte payload of
    0.1.0 followed by one byte, which is the flags 0.1.0 computed in that
    pass when the pass wrote the buffer, and the 0 of the initialiser when
    it did not. *)
Theorem firmware_releases_in_step evs io :
  let s1 := fw_run evs in
  let s0 := V0_1_0.fw_run evs in
  ble_ready s1 = ble_ready s0 /\
  length (mfr_data (V0_1_0.loop_iteration io s0)) = 9%nat /\
  mfr_data (loop_iteration io s1) =
    mfr_data (V0_1_0.loop_iteration io s0)
    ++ [if ble_ready s1 then flags (V0_1_0.loop_locals io) else 0].
Proof.
  intros s1 s0.
  assert (Hrel : enc_related s1 s0)
    by apply enc_related_fw_fold, enc_related_init.
  pose proof (enc_related_fw_step s1 s0 (EvLoop io) Hrel) as Hrel'.
  simpl in Hrel'.
  split; [apply (rel_ready _ _ Hrel) |].
  split; [apply (rel_length _ _ Hrel') |].
  unfold loop_iteration, V0_1_0.loop_iteration.
  rewrite (v0_loop_locals io).
  now apply update_ble_extends.
Qed.

End ReleasesMore.
